(** * Binil: pool-state cache, metrics engine and strategy pipeline

    A shallow embedding of the TypeScript sources
      - [src/services/metrics.ts]           (MetricsService)
      - [src/services/market-data.ts]       (MarketDataService)
      - [src/strategies/base.ts]            (BaseStrategy)
      - [src/strategies/balanced-liquidity.ts] (BalancedLiquidityStrategy)
    together with the two number representations they compute with:
    big.js decimals ([Big]) and ECMAScript numbers, i.e. IEEE-754 binary64
    values ([Num]). *)

From Stdlib Require Import ZArith QArith Qabs Qround Qpower Lia Lqa List Bool Floats.
From Stdlib Require Import Sorting.Sorted Sorting.Permutation.
From stdpp Require Import gmap strings.

Set Warnings "-inexact-float".
Open Scope Z_scope.

(* ===================================================================== *)
(** ** Exceptions

    A [throw] is an explicit result; [try ... catch] is a match on it. *)

Inductive exn : Type :=
  | Error (msg : string).

Inductive result (A : Type) : Type :=
  | Ok (a : A)
  | Throw (e : exn).
Arguments Ok {A} a.
Arguments Throw {A} e.

Definition rbind {A B : Type} (r : result A) (k : A -> result B) : result B :=
  match r with
  | Ok a => k a
  | Throw e => Throw e
  end.

Notation "'let*' x ':=' r 'in' k" := (rbind r (fun x => k))
  (at level 10, x name, r at level 100, k at level 200).

(** [Array.prototype.map] with a callback that may throw: the first throw
    aborts the traversal. *)
Fixpoint mapM {A B : Type} (f : A -> result B) (l : list A) : result (list B) :=
  match l with
  | nil => Ok nil
  | x :: l' =>
      let* y := f x in
      let* ys := mapM f l' in
      Ok (y :: ys)
  end.

(* ===================================================================== *)
(** ** big.js decimals

    A [Big] is an arbitrary-precision decimal: [coef / 10 ^ scale].  big.js
    keeps a sign, an exponent and a digit array; only the value matters to
    the operations used here.  [add], [minus] and [mul] are exact; [div]
    rounds the quotient to [DP] decimal places, half away from zero (rounding
    mode 1, [Big.roundHalfUp]), and throws on a zero divisor.  [DP] is the
    mutable [Big.DP]: 20 as big.js ships, 18 once [src/utils/math.ts] has
    been loaded. *)

Module Big.

Record t : Type := mk { coef : Z; scale : nat }.

Definition pow10 (n : nat) : Z := 10 ^ Z.of_nat n.

Definition of_Z (z : Z) : t := mk z 0.

(** The decimal as an exact rational. *)
Definition toQ (x : t) : Q := Qmake (coef x) (Z.to_pos (pow10 (scale x))).

Definition cmp (x y : t) : comparison :=
  coef x * pow10 (scale y) ?= coef y * pow10 (scale x).

Definition eq (x y : t) : bool :=
  match cmp x y with Eq => true | _ => false end.
Definition gt (x y : t) : bool :=
  match cmp x y with Gt => true | _ => false end.
Definition lt (x y : t) : bool :=
  match cmp x y with Lt => true | _ => false end.
Definition lte (x y : t) : bool := negb (gt x y).
Definition gte (x y : t) : bool := negb (lt x y).

Definition add (x y : t) : t :=
  mk (coef x * pow10 (scale y) + coef y * pow10 (scale x)) (scale x + scale y).
Definition minus (x y : t) : t :=
  mk (coef x * pow10 (scale y) - coef y * pow10 (scale x)) (scale x + scale y).
Definition mul (x y : t) : t :=
  mk (coef x * coef y) (scale x + scale y).

(** The integer nearest to [n / d], halves away from zero. *)
Definition div_half_up (n d : Z) : Z :=
  Z.sgn n * Z.sgn d * ((2 * Z.abs n + Z.abs d) / (2 * Z.abs d)).

Definition DIV_BY_ZERO : exn := Error "[big.js] Division by zero".
Definition INVALID_NUMBER : exn := Error "[big.js] Invalid number".

Definition div (DP : nat) (x y : t) : result t :=
  if coef y =? 0 then Throw DIV_BY_ZERO
  else Ok (mk (div_half_up (coef x * pow10 (scale y) * pow10 DP)
                           (coef y * pow10 (scale x))) DP).

Definition zero : t := of_Z 0.
Definition one : t := of_Z 1.

(** The exact sum of the values [f b] over a list. *)
Definition sumQ {A : Type} (f : A -> t) (l : list A) : Q :=
  fold_right (fun b acc => (toQ (f b) + acc)%Q) 0%Q l.

End Big.

(* ===================================================================== *)
(** ** ECMAScript numbers

    A [number] is a binary64 value, the kernel's primitive [float]; [+], [-],
    [*], [/] and [Math.sqrt] are its correctly rounded operations.  What the
    sources add to them are the conversions between numbers and decimals. *)

Module Num.

Definition number : Type := float.

(** The integer nearest to [n / d], halves to even ([0 <= n], [0 < d]). *)
Definition round_half_even (n d : Z) : Z :=
  let q := n / d in
  match 2 * (n mod d) ?= d with
  | Lt => q
  | Gt => q + 1
  | Eq => if Z.even q then q else q + 1
  end.

(** The binary64 value nearest to [n / d], for [0 <= n] and [0 < d]: scale
    the quotient into [[2^52, 2^53)] (or onto the subnormal grid [2^-1074]),
    round to an integer significand, and scale back. *)
Definition of_ratio (n d : Z) : float :=
  if n =? 0 then 0%float
  else
    let k0 := Z.log2 n - Z.log2 d - 53 in
    let above (k : Z) : bool :=
      if 0 <=? k then 2 ^ 53 * d * 2 ^ k <=? n else 2 ^ 53 * d <=? n * 2 ^ (- k) in
    let k1 := if above k0 then k0 + 1 else k0 in
    let k := Z.max k1 (-1074) in
    let m := if 0 <=? k then round_half_even n (d * 2 ^ k)
             else round_half_even (n * 2 ^ (- k)) d in
    Z.ldexp (PrimFloat.of_uint63 (Uint63.of_Z m)) k.

Definition of_Z (z : Z) : float :=
  if z <? 0 then (- of_ratio (- z) 1)%float else of_ratio z 1.

(** [Number(x.toString())] and [Number(x)] for a [Big] [x]: the decimal
    string read back as the nearest number, halves to even, as V8 reads it
    (ECMAScript lets an implementation drop the digits after the 20th
    significant one). *)
Definition Number (x : Big.t) : float :=
  let f := of_ratio (Z.abs (Big.coef x)) (Big.pow10 (Big.scale x)) in
  if Big.coef x <? 0 then (- f)%float else f.

(** Sign, numerator and denominator of a finite number. *)
Definition ratio_of (x : float) : option (bool * Z * Z) :=
  match Prim2SF x with
  | S754_zero s => Some (s, 0, 1)
  | S754_finite s m e =>
      Some (s, if 0 <=? e then Zpos m * 2 ^ e else Zpos m,
               if 0 <=? e then 1 else 2 ^ (- e))
  | _ => None
  end.

(** [String(x)] for a positive finite [x = n / d]: the decimal [s / 10^p]
    with the fewest digits that reads back as [x]; among two of them the one
    nearer to [x].  [p] counts decimal places and may be negative. *)
Definition reads_back (x : float) (s p : Z) : bool :=
  PrimFloat.eqb (if 0 <=? p then of_ratio s (10 ^ p) else of_ratio (s * 10 ^ (- p)) 1) x.

Fixpoint shortest (fuel : nat) (x : float) (n d p : Z) : Z * Z :=
  let nn := if 0 <=? p then n * 10 ^ p else n in
  let dd := if 0 <=? p then d else d * 10 ^ (- p) in
  let lo := nn / dd in
  let hi := lo + 1 in
  match fuel with
  | O => (lo, p)
  | S fuel' =>
      match reads_back x lo p, reads_back x hi p with
      | true, true =>
          match 2 * (nn mod dd) ?= dd with
          | Lt => (lo, p)
          | Gt => (hi, p)
          | Eq => if Z.even lo then (lo, p) else (hi, p)
          end
      | true, false => (lo, p)
      | false, true => (hi, p)
      | false, false => shortest fuel' x n d (p + 1)
      end
  end.

(** [new Big(x)] for a number [x]: big.js parses [String(x)] and throws on
    [NaN] and the infinities. *)
Definition toBig (x : float) : result Big.t :=
  match ratio_of x with
  | None => Throw Big.INVALID_NUMBER
  | Some (neg, n, d) =>
      if n =? 0 then Ok Big.zero
      else
        let p0 := - (Z.log2 n / 3 + 1) in
        let fuel := Z.to_nat (Z.log2 d - p0 + 2) in
        let '(s, p) := shortest fuel (PrimFloat.abs x) n d p0 in
        let c := if neg then - s else s in
        Ok (if 0 <=? p then Big.mk c (Z.to_nat p) else Big.mk (c * 10 ^ (- p)) 0)
  end.

(** [Math.floor]. *)
Definition Math_floor (x : float) : float :=
  match Prim2SF x with
  | S754_finite s m e =>
      if 0 <=? e then x
      else
        let z := (if s then Zneg m else Zpos m) / 2 ^ (- e) in
        if z =? 0 then (if s then (-0)%float else 0%float) else of_Z z
  | _ => x
  end.

(** ECMAScript leaves [Math.pow] implementation-approximated outside its
    special cases, so the metrics below take it as a parameter.  This
    reference instance multiplies: exact on the special cases it covers
    (exponent zero, base one, small integral powers) and used to instantiate
    the parameter. *)
Definition Math_pow_ref (b e : float) : float :=
  match ratio_of e with
  | Some (neg, n, d) =>
      if (n mod d =? 0)%Z then
        match (n / d)%Z with
        | Zpos k =>
            let r := Pos.iter_op PrimFloat.mul k b in
            if neg then (1 / r)%float else r
        | _ => 1%float
        end
      else nan
  | None => nan
  end.

End Num.

(* ===================================================================== *)
(** ** The value of a binary64 number

    Numbers are compared with the exact quotients they stand for through
    their rational value. *)

Module FloatValue.

(** The power of two as a rational. *)
Definition bpow (e : Z) : Q := (2 ^ e)%Q.

(** The value of a finite number; 0 for the others. *)
Definition SFV (x : spec_float) : Q :=
  match x with
  | S754_finite s m e => (inject_Z (if s then Zneg m else Zpos m) * bpow e)%Q
  | _ => 0%Q
  end.

Definition value (x : float) : Q := SFV (Prim2SF x).

(** A positive number in the normal range: 53 significant bits. *)
Definition pnormal (x : float) : Prop :=
  exists m e, Prim2SF x = S754_finite false m e /\
              2 ^ 52 <= Zpos m < 2 ^ 53 /\ -1074 <= e <= 971.

(** Half the distance between neighbouring numbers, relative to their
    size. *)
Definition u : Q := 1 # 9007199254740992.

(** What a shift record knows of the mantissa [M] it came from, after [t]
    shifts: the quotient, and where the remainder lies in its interval. *)
Definition shr_inv (M t : Z) (mrs : shr_record) : Prop :=
  0 <= shr_m mrs /\
  exists rem,
    M = shr_m mrs * 2 ^ t + rem /\ 0 <= rem < 2 ^ t /\
    match shr_r mrs, shr_s mrs with
    | false, false => rem = 0
    | false, true => 0 < 2 * rem < 2 ^ t
    | true, false => 2 * rem = 2 ^ t
    | true, true => 2 ^ t < 2 * rem
    end.

(** Half a unit in the 18th decimal. *)
Definition eps : Q := 1 # 2000000000000000000.

End FloatValue.

(* ===================================================================== *)
(** ** MetricsService ([src/services/metrics.ts])

    Every method wraps its body in [try { ... } catch { log; return default }]:
    [catch] below.  Logging has no effect on the results and is left out. *)

Module Metrics.

Import Num.

Definition catch {A : Type} (body : result A) (default : A) : A :=
  match body with
  | Ok a => a
  | Throw _ => default
  end.

Record bin : Type := mkBin { liquidityX : Big.t; liquidityY : Big.t }.

Record distribution : Type :=
  mkDistribution { concentrationIndex : float; liquidityRatio : float }.

Section MetricsService.

Variable DP : nat.
Variable Math_pow : float -> float -> float.

Definition calculateAPR (fees24h totalLiquidity : Big.t) : float :=
  catch
    (if Big.eq totalLiquidity Big.zero then Ok 0%float
     else
       let* dailyRate := Big.div DP fees24h totalLiquidity in
       Ok (Number (Big.mul (Big.mul dailyRate (Big.of_Z 365)) (Big.of_Z 100))))
    0%float.

Definition calculateCompoundedAPR
    (dailyFee totalLiquidity : Big.t) (daysPerYear : float) : float :=
  catch
    (if Big.eq totalLiquidity Big.zero then Ok 0%float
     else
       let* dailyRate := Big.div DP dailyFee totalLiquidity in
       let compoundedReturn := (Math_pow (1 + Number dailyRate) daysPerYear - 1)%float in
       Ok (compoundedReturn * 100)%float)
    0%float.

Definition calculateImpermanentLoss (initialPriceRatio currentPriceRatio : Big.t) : float :=
  catch
    (if Big.eq initialPriceRatio Big.zero || Big.eq currentPriceRatio Big.zero
     then Ok 0%float
     else
       let* ratio := Big.div DP currentPriceRatio initialPriceRatio in
       let* sqrtRatio := toBig (PrimFloat.sqrt (Number ratio)) in
       let numerator := Big.mul (Big.of_Z 2) sqrtRatio in
       let denominator := Big.add (Big.of_Z 1) ratio in
       let* quotient := Big.div DP numerator denominator in
       Ok (Number (Big.minus quotient (Big.of_Z 1))))
    0%float.

(** The two totals of [getLiquidityDistribution], [binData.reduce(...)]. *)
Definition totalX (binData : list bin) : Big.t :=
  fold_left (fun sum b => Big.add sum (liquidityX b)) binData Big.zero.
Definition totalY (binData : list bin) : Big.t :=
  fold_left (fun sum b => Big.add sum (liquidityY b)) binData Big.zero.

(** The [try] block of [getLiquidityDistribution]. *)
Definition getLiquidityDistribution_body (binData : list bin) : result distribution :=
  match binData with
  | nil => Ok (mkDistribution 0 0)
  | _ =>
      let* liquidityShares :=
        mapM (fun b =>
                let binTotal := Big.add (liquidityX b) (liquidityY b) in
                let* share := Big.div DP binTotal (Big.add (totalX binData) (totalY binData)) in
                Ok (Number share))
             binData in
      let concentrationIndex :=
        (1 - fold_left (fun a b => a + b * b) liquidityShares 0)%float in
      let* liquidityRatio :=
        if Big.eq (totalX binData) Big.zero then Ok 0%float
        else let* q := Big.div DP (totalY binData) (totalX binData) in Ok (Number q) in
      Ok (mkDistribution concentrationIndex liquidityRatio)
  end.

Definition getLiquidityDistribution (binData : list bin) : distribution :=
  catch (getLiquidityDistribution_body binData) (mkDistribution 0 0).

Definition calculateBinPrice (binId binStep : float) (basePrice : Big.t) : Big.t :=
  catch
    (let stepMultiplier := (1 + binStep / 10000)%float in
     let priceMultiplier := Math_pow stepMultiplier binId in
     let* multiplier := toBig priceMultiplier in
     Ok (Big.mul basePrice multiplier))
    Big.zero.

End MetricsService.

End Metrics.

(* ===================================================================== *)
(** ** Shared types ([src/types/index.ts])

    The fields are the ones the services and strategies read.  A [Date] is
    its [getTime()], milliseconds as an integer.  Bin ids are integers.  The
    numbers that are only ever compared (priority, volatility, slippage, APR
    and their limits) are kept as the exact rationals that finite binary64
    values are; comparison is exact on them. *)

Module Types.

Inductive ActionType : Type :=
  | CREATE_POSITION
  | CLOSE_POSITION
  | REBALANCE
  | COLLECT_FEES
  | ADJUST_RANGE
  | EMERGENCY_EXIT.

(** [StrategyType] of [@meteora-ag/dlmm]. *)
Inductive StrategyType : Type := Spot | Curve | BidAsk.

Record PoolData : Type := mkPoolData {
  address : string;
  activeId : Z;
  liquidity : Big.t;
  fees24h : Big.t;
  apr : Q;
  volatility : Q;
  lastUpdated : Z
}.

Record MarketData : Type := mkMarketData {
  pools : list PoolData;
  timestamp : Z
}.

Record ActionParameters : Type := mkParameters {
  positionId : option string;
  binRange : option (Z * Z);
  liquidityAmount : option Big.t;
  slippage : option Q;
  strategyType : option StrategyType;
  reason : option string;
  autoCompound : option bool
}.

Definition noParameters : ActionParameters :=
  mkParameters None None None None None None None.

Record StrategyAction : Type := mkAction {
  type : ActionType;
  poolAddress : string;
  parameters : ActionParameters;
  priority : Q;
  estimatedGas : Z;
  expectedReturn : option Big.t
}.

Record ExecutionResult : Type := mkExecutionResult {
  success : bool;
  transactionId : option string;
  error : option string;
  actualReturn : option Big.t
}.

Record RiskParameters : Type := mkRiskParameters {
  rp_maxPositionSize : Big.t;
  maxSlippage : Q;
  volatilityThreshold : Q;
  concentrationLimit : Q
}.

(** [StrategyConfig] carries [[key: string]: any]; the optional keys are the
    ones [BalancedLiquidityStrategy] spreads over its defaults.  The three
    declared fields can be missing at run time, which [validateConfig]
    checks. *)
Record StrategyConfig : Type := mkStrategyConfig {
  cfg_poolAddress : string;
  maxPositionSize : option Big.t;
  riskParameters : option RiskParameters;
  cfg_targetRange : option Z;
  cfg_rebalanceThreshold : option float;
  cfg_minLiquidityAmount : option Big.t;
  cfg_maxLiquidityAmount : option Big.t;
  cfg_autoCompound : option bool;
  cfg_feeCollectionThreshold : option Big.t
}.

End Types.

(* ===================================================================== *)
(** ** BaseStrategy ([src/strategies/base.ts])

    The abstract methods are a class of hooks over the subclass state [S].
    A hook sees [this.config] and the clock, may change the subclass state,
    and may throw; the state it reached is kept when it throws. *)

Module BaseStrategy.

Import Types.

Class StrategyHooks (S : Type) : Type := {
  name : string;
  onInitialize : option StrategyConfig -> S -> S * result unit;
  onAnalyze : option StrategyConfig -> MarketData -> Z -> S -> S * result (list StrategyAction);
  onExecute : option StrategyConfig -> StrategyAction -> Z -> S -> S * result ExecutionResult;
  onCleanup : option StrategyConfig -> S -> S * result unit;
  validateStrategySpecificConfig : StrategyConfig -> result unit;
  isStrategySpecificActionSafe :
    option StrategyConfig -> StrategyAction -> MarketData -> Z -> S -> result bool
}.

Record t (S : Type) : Type := mk {
  config : option StrategyConfig;
  isInitialized : bool;
  self : S
}.
Arguments mk {S} config isInitialized self.
Arguments config {S} t.
Arguments isInitialized {S} t.
Arguments self {S} t.

(** The object as constructed: no config, not initialized. *)
Definition new {S : Type} (s : S) : t S := mk None false s.

Definition getErrorMessage (e : exn) : string :=
  match e with Error msg => msg end.

Definition TypeError : exn := Error "TypeError: Cannot read properties of undefined".

(** Reading a property through a reference that is [undefined] throws. *)
Definition required {A : Type} (o : option A) : result A :=
  match o with
  | Some a => Ok a
  | None => Throw TypeError
  end.

Definition Qgt_bool (a b : Q) : bool := negb (Qle_bool a b).

(** Truthiness of a number that is not [NaN]. *)
Definition truthy (q : Q) : bool := negb (Qeq_bool q 0).

(** [Array.prototype.sort] with a comparator: stable, and for a comparator
    that orders consistently the result is the stable insertion of each
    element after the elements the comparator puts strictly before it. *)
Section Sort.

Context {A : Type} (compareFn : A -> A -> Q).

Fixpoint insert (x : A) (l : list A) : list A :=
  match l with
  | nil => x :: nil
  | y :: l' =>
      if Qgt_bool 0 (compareFn y x) then y :: insert x l' else x :: y :: l'
  end.

Definition sort (l : list A) : list A := fold_right insert nil l.

End Sort.

Definition estimateGas (ty : ActionType) : Z :=
  match ty with
  | CREATE_POSITION => 300000
  | CLOSE_POSITION => 200000
  | REBALANCE => 400000
  | COLLECT_FEES => 150000
  | ADJUST_RANGE => 350000
  | EMERGENCY_EXIT => 250000
  end.

Definition createAction (ty : ActionType) (pool : string)
    (params : ActionParameters) (expected : option Big.t) : StrategyAction :=
  mkAction ty pool params 50 (estimateGas ty) expected.

Section Base.

Context {S : Type} `{StrategyHooks S}.

Definition notInitialized : exn :=
  Error ("Strategy " ++ name ++ " not initialized").

Definition validateConfig (cfg : StrategyConfig) : result unit :=
  if String.eqb (cfg_poolAddress cfg) "" then Throw (Error "Pool address is required")
  else
    match maxPositionSize cfg with
    | None => Throw (Error "Max position size must be greater than 0")
    | Some m =>
        if Big.lte m Big.zero then Throw (Error "Max position size must be greater than 0")
        else
          match riskParameters cfg with
          | None => Throw (Error "Risk parameters are required")
          | Some _ => validateStrategySpecificConfig cfg
          end
    end.

Definition initialize (cfg : StrategyConfig) (st : t S) : t S * result unit :=
  match validateConfig cfg with
  | Throw e => (mk (Some cfg) (isInitialized st) (self st), Throw e)
  | Ok _ =>
      let '(s', r) := onInitialize (Some cfg) (self st) in
      match r with
      | Throw e => (mk (Some cfg) (isInitialized st) s', Throw e)
      | Ok _ => (mk (Some cfg) true s', Ok tt)
      end
  end.

(** The three checks of [isActionSafe]: [Ok true] lets the action through to
    the next check, [Ok false] is a [return false], and a [Throw] is caught
    by the [catch] of [isActionSafe]. *)

(** [// Check position size limits] *)
Definition checkPositionSize (st : t S) (action : StrategyAction) : result bool :=
  match liquidityAmount (parameters action) with
  | Some amount =>
      let* cfg := required (config st) in
      let* maxSize := required (maxPositionSize cfg) in
      Ok (negb (Big.gt amount maxSize))
  | None => Ok true
  end.

(** [// Check volatility limits] *)
Definition checkVolatility (st : t S) (action : StrategyAction)
    (marketData : MarketData) : result bool :=
  match find (fun p => String.eqb (address p) (poolAddress action)) (pools marketData) with
  | Some poolData =>
      let* cfg := required (config st) in
      let* rp := required (riskParameters cfg) in
      Ok (negb (Qgt_bool (volatility poolData) (volatilityThreshold rp)))
  | None => Ok true
  end.

(** [// Check slippage limits] *)
Definition checkSlippage (st : t S) (action : StrategyAction) : result bool :=
  match slippage (parameters action) with
  | Some s =>
      if truthy s then
        let* cfg := required (config st) in
        let* rp := required (riskParameters cfg) in
        Ok (negb (Qgt_bool s (maxSlippage rp)))
      else Ok true
  | None => Ok true
  end.

(** The [try] block of [isActionSafe]. *)
Definition isActionSafe_body (st : t S) (action : StrategyAction)
    (marketData : MarketData) (now : Z) : result bool :=
  let* withinSize := checkPositionSize st action in
  if negb withinSize then Ok false
  else
    let* calm := checkVolatility st action marketData in
    if negb calm then Ok false
    else
      let* tight := checkSlippage st action in
      if negb tight then Ok false
      else isStrategySpecificActionSafe (config st) action marketData now (self st).

Definition isActionSafe (st : t S) (action : StrategyAction)
    (marketData : MarketData) (now : Z) : bool :=
  match isActionSafe_body st action marketData now with
  | Ok b => b
  | Throw _ => false
  end.

Definition applyRiskFilters (st : t S) (actions : list StrategyAction)
    (marketData : MarketData) (now : Z) : list StrategyAction :=
  List.filter (fun action => isActionSafe st action marketData now) actions.

(** [(a, b) => b.priority - a.priority] *)
Definition byPriority (a b : StrategyAction) : Q := priority b - priority a.

(** The order that comparator sorts into: descending priority. *)
Definition byPriorityDesc (a b : StrategyAction) : Prop := (priority b <= priority a)%Q.

Definition analyze (marketData : MarketData) (now : Z) (st : t S)
    : t S * result (list StrategyAction) :=
  if negb (isInitialized st) then (st, Throw notInitialized)
  else
    let '(s', r) := onAnalyze (config st) marketData now (self st) in
    let st' := mk (config st) (isInitialized st) s' in
    match r with
    | Throw e => (st', Throw e)
    | Ok actions =>
        let filteredActions := applyRiskFilters st' actions marketData now in
        (st', Ok (sort byPriority filteredActions))
    end.

Definition execute (action : StrategyAction) (now : Z) (st : t S)
    : t S * result ExecutionResult :=
  if negb (isInitialized st) then (st, Throw notInitialized)
  else
    let '(s', r) := onExecute (config st) action now (self st) in
    let st' := mk (config st) (isInitialized st) s' in
    match r with
    | Ok res => (st', Ok res)
    | Throw e => (st', Ok (mkExecutionResult false None (Some (getErrorMessage e)) None))
    end.

Definition cleanup (st : t S) : t S * result unit :=
  let '(s', r) := onCleanup (config st) (self st) in
  match r with
  | Throw e => (mk (config st) (isInitialized st) s', Throw e)
  | Ok _ => (mk (config st) false s', Ok tt)
  end.

End Base.

End BaseStrategy.

(* ===================================================================== *)
(** ** BalancedLiquidityStrategy ([src/strategies/balanced-liquidity.ts])

    The bookkeeping behind the rebalance hysteresis: the last active bin
    seen, the time of the last rebalance, and the merged configuration.
    [rebalanceThreshold] enters a binary64 multiplication and stays a
    [float]. *)

Module BalancedLiquidity.

Import Types.

Record BalancedLiquidityConfig : Type := mkBalancedConfig {
  targetRange : Z;
  rebalanceThreshold : float;
  minLiquidityAmount : Big.t;
  maxLiquidityAmount : Big.t;
  bc_autoCompound : bool;
  feeCollectionThreshold : Big.t
}.

Record t : Type := mk {
  balancedConfig : option BalancedLiquidityConfig;
  lastActiveBinId : Z;
  lastRebalanceTime : Z;
  minRebalanceInterval : Z
}.

(** The field initializers of the class. *)
Definition new : t := mk None 0 0 300000.

Definition orDefault {A : Type} (o : option A) (d : A) : A :=
  match o with Some a => a | None => d end.

(** [{ targetRange: 10, rebalanceThreshold: 0.05, ..., ...this.config }] *)
Definition mergeConfig (config : option StrategyConfig) : BalancedLiquidityConfig :=
  mkBalancedConfig
    (orDefault (config ≫= cfg_targetRange) 10)
    (orDefault (config ≫= cfg_rebalanceThreshold) 0.05%float)
    (orDefault (config ≫= cfg_minLiquidityAmount) (Big.of_Z 100))
    (orDefault (config ≫= cfg_maxLiquidityAmount) (Big.of_Z 10000))
    (orDefault (config ≫= cfg_autoCompound) true)
    (orDefault (config ≫= cfg_feeCollectionThreshold) (Big.of_Z 10)).

(** [onInitialize] assigns the merged configuration and then logs
    [this.config.poolAddress]. *)
Definition onInitialize (config : option StrategyConfig) (s : t) : t * result unit :=
  let s' :=
    mk (Some (mergeConfig config)) (lastActiveBinId s) (lastRebalanceTime s)
       (minRebalanceInterval s) in
  match config with
  | None => (s', Throw BaseStrategy.TypeError)
  | Some _ => (s', Ok tt)
  end.

Definition rebalanceParameters (newMinBinId newMaxBinId : Z) : ActionParameters :=
  mkParameters None (Some (newMinBinId, newMaxBinId)) None None
               (Some Spot) (Some "Active bin movement"%string) None.

(** [analyzeRebalancing], called by [onAnalyze] once [this.config] has been
    read.  Its [catch] logs and falls through to [return actions], so a
    [TypeError] thrown on an undefined [balancedConfig] leaves the list as it
    was and skips the update of [lastActiveBinId]. *)
Definition analyzeRebalancing (config : StrategyConfig) (poolData : PoolData)
    (now : Z) (s : t) : t * list StrategyAction :=
  let currentActiveBinId := activeId poolData in
  if now - lastRebalanceTime s <? minRebalanceInterval s then (s, nil)
  else
    let seen :=
      mk (balancedConfig s) currentActiveBinId (lastRebalanceTime s) (minRebalanceInterval s) in
    if negb (lastActiveBinId s =? 0) then
      match balancedConfig s with
      | None => (s, nil)
      | Some bc =>
          let binMovement := Z.abs (currentActiveBinId - lastActiveBinId s) in
          let movementThreshold :=
            Num.Math_floor (Num.of_Z (targetRange bc) * rebalanceThreshold bc)%float in
          if PrimFloat.leb movementThreshold (Num.of_Z binMovement) then
            let newMinBinId := currentActiveBinId - targetRange bc in
            let newMaxBinId := currentActiveBinId + targetRange bc in
            (seen,
             BaseStrategy.createAction REBALANCE (cfg_poolAddress config)
               (rebalanceParameters newMinBinId newMaxBinId) None :: nil)
          else (seen, nil)
      end
    else (seen, nil).

(** [onExecute]: both the [try] block and its [catch] log
    [this.config.poolAddress]. *)
Definition onExecute (config : option StrategyConfig) (action : StrategyAction)
    (now : Z) (s : t) : t * result ExecutionResult :=
  let s' :=
    match type action with
    | REBALANCE => mk (balancedConfig s) (lastActiveBinId s) now (minRebalanceInterval s)
    | _ => s
    end in
  match config with
  | None => (s', Throw BaseStrategy.TypeError)
  | Some _ =>
      (s', Ok (mkExecutionResult true (Some "placeholder"%string) None (expectedReturn action)))
  end.

Definition onCleanup (config : option StrategyConfig) (s : t) : t * result unit :=
  match config with
  | None => (s, Throw BaseStrategy.TypeError)
  | Some _ => (mk (balancedConfig s) 0 0 (minRebalanceInterval s), Ok tt)
  end.

End BalancedLiquidity.

(* ===================================================================== *)
(** ** MarketDataService ([src/services/market-data.ts])

    The pool-state cache.  A [DLMM] handle is the SDK object of one pool.
    What a refresh asks of it first are five calls ([refetchStates],
    [getParameters], [getActiveBin], [getBinArrays], [getFeeInfo]): at the
    time of the call they all answer, or one of them throws. *)

Module MarketData.

Import Types.

Definition DLMM : Type := Z -> result unit.

Record t : Type := mk {
  poolCache : gmap string PoolData;
  dlmmInstances : gmap string DLMM;
  updateInterval : Z
}.

Definition new : t := mk ∅ ∅ 30000.








Section Service.

(** [DLMM.create(connection, new PublicKey(poolAddress))] *)
Variable DLMM_create : string -> result DLMM.




End Service.

End MarketData.

(* ===================================================================== *)
(** ** A concrete subclass for examples

    The smallest subclass of [BaseStrategy]: its analysis proposes the
    actions it was built with, and it keeps the base class's own
    [validateStrategySpecificConfig] (nothing to check) and
    [isStrategySpecificActionSafe] (always [true]). *)

Module FixedStrategy.

Import Types BaseStrategy.

Definition t : Type := list StrategyAction.

#[export] Instance hooks : StrategyHooks t := {|
  name := "fixed";
  onInitialize := fun _ s => (s, Ok tt);
  onAnalyze := fun _ _ _ s => (s, Ok s);
  onExecute := fun _ action _ s =>
    (s, Ok (mkExecutionResult true (Some "placeholder"%string) None (expectedReturn action)));
  onCleanup := fun _ s => (s, Ok tt);
  validateStrategySpecificConfig := fun _ => Ok tt;
  isStrategySpecificActionSafe := fun _ _ _ _ _ => Ok true
|}.

End FixedStrategy.

(* ===================================================================== *)
(** ** Sample data

    Configurations, actions, market data and SDK handles for the worked
    instances below. *)

Module Examples.

Import Types.

Definition riskLimits : RiskParameters :=
  mkRiskParameters (Big.of_Z 1000) (1 # 100) (1 # 2) (1 # 4).

Definition config : StrategyConfig :=
  mkStrategyConfig "pool" (Some (Big.of_Z 1000)) (Some riskLimits)
                   None None None None None None.

(** A configuration that passes [validateConfig] with a negative
    [maxSlippage]. *)
Definition negativeSlippageLimits : RiskParameters :=
  mkRiskParameters (Big.of_Z 1000) (- (1 # 100)) (1 # 2) (1 # 4).

Definition negativeSlippageConfig : StrategyConfig :=
  mkStrategyConfig "pool" (Some (Big.of_Z 1000)) (Some negativeSlippageLimits)
                   None None None None None None.

Definition pool : PoolData :=
  mkPoolData "pool" 100 (Big.of_Z 50000) (Big.of_Z 20) (3 # 10) (2 # 10) 0.

Definition marketData : MarketData := mkMarketData (pool :: nil) 0.

(** A create-position action above the maximum position size of 1000. *)
Definition oversized : StrategyAction :=
  mkAction CREATE_POSITION "pool"
    (mkParameters None None (Some (Big.of_Z 5000)) (Some (1 # 100)) None None None)
    50 300000 None.

Definition collectFees : StrategyAction :=
  mkAction COLLECT_FEES "pool" noParameters 80 150000 None.

Definition rebalance : StrategyAction :=
  mkAction REBALANCE "pool" noParameters 65 400000 None.

(** An action that asks for a slippage of 0. *)
Definition zeroSlippage : StrategyAction :=
  mkAction CREATE_POSITION "pool"
    (mkParameters None None (Some (Big.of_Z 500)) (Some 0%Q) None None None)
    50 300000 None.




End Examples.

(* ===================================================================== *)
(** * Facts about decimals *)

Module BigFacts.

Lemma pow10_pos (n : nat) : 0 < Big.pow10 n.
Proof. unfold Big.pow10. apply Z.pow_pos_nonneg; lia. Qed.

Lemma pow10_0 : Big.pow10 0 = 1.
Proof. reflexivity. Qed.

Lemma pow10_add (a b : nat) : Big.pow10 (a + b) = Big.pow10 a * Big.pow10 b.
Proof. unfold Big.pow10. rewrite Nat2Z.inj_add, Z.pow_add_r; lia. Qed.

Lemma eq_zero_iff (x : Big.t) : Big.eq x Big.zero = true <-> Big.coef x = 0.
Proof.
  unfold Big.eq, Big.cmp, Big.zero, Big.of_Z; cbn [Big.coef Big.scale].
  rewrite pow10_0, Z.mul_1_r, Z.mul_0_l.
  destruct (Big.coef x ?= 0) eqn:E.
  - apply Z.compare_eq_iff in E. split; [intros _; exact E | reflexivity].
  - split; [discriminate|]. intros H. rewrite H in E. discriminate.
  - split; [discriminate|]. intros H. rewrite H in E. discriminate.
Qed.

Lemma eq_zero_false_iff (x : Big.t) : Big.eq x Big.zero = false <-> Big.coef x <> 0.
Proof.
  pose proof (eq_zero_iff x) as H.
  destruct (Big.eq x Big.zero); split; intros; try discriminate; try reflexivity.
  - exfalso. apply H0. apply H. reflexivity.
  - intros Hc. apply H in Hc. discriminate.
Qed.

(** An exact quotient is returned as it is. *)
Lemma div_half_up_exact (d k : Z) : d <> 0 -> 0 <= k -> Big.div_half_up (d * k) d = k.
Proof.
  intros Hd Hk. unfold Big.div_half_up.
  destruct (Z.eq_dec k 0) as [->|Hk0].
  - rewrite Z.mul_0_r. reflexivity.
  - rewrite Z.sgn_mul, (Z.sgn_pos k) by lia.
    rewrite Z.mul_1_r, <- Z.sgn_mul.
    rewrite Z.sgn_pos by nia.
    rewrite Z.abs_mul, (Z.abs_eq k) by lia.
    replace (2 * (Z.abs d * k) + Z.abs d) with ((2 * k + 1) * Z.abs d) by ring.
    rewrite Z.div_mul_cancel_r by lia.
    rewrite Z.mul_1_l. symmetry. apply (Z.div_unique _ _ _ 1); lia.
Qed.

(** The rounded quotient is within one half of the exact one. *)
Lemma div_half_up_bound (n d : Z) :
  d <> 0 -> Z.abs (2 * Big.div_half_up n d * d - 2 * n) <= Z.abs d.
Proof.
  intros Hd. unfold Big.div_half_up.
  set (a := Z.abs n). set (b := Z.abs d).
  assert (Hb : 0 < b) by (unfold b; lia).
  set (q := (2 * a + b) / (2 * b)).
  assert (Hq : 2 * b * q <= 2 * a + b < 2 * b * q + 2 * b).
  { pose proof (Z.div_mod (2 * a + b) (2 * b) ltac:(lia)) as E.
    pose proof (Z.mod_pos_bound (2 * a + b) (2 * b) ltac:(lia)) as B.
    fold q in E. lia. }
  destruct (Z.sgn_spec n) as [[Hn E]|[[Hn E]|[Hn E]]];
  destruct (Z.sgn_spec d) as [[Hd' E']|[[Hd' E']|[Hd' E']]];
    rewrite E, E'; unfold a, b in *; try lia.
Qed.

Lemma div_ok (DP : nat) (x y : Big.t) :
  Big.coef y <> 0 ->
  Big.div DP x y =
    Ok (Big.mk (Big.div_half_up (Big.coef x * Big.pow10 (Big.scale y) * Big.pow10 DP)
                                (Big.coef y * Big.pow10 (Big.scale x))) DP).
Proof.
  intros Hy. unfold Big.div. apply Z.eqb_neq in Hy. rewrite Hy. reflexivity.
Qed.

Lemma div_by_zero (DP : nat) (x y : Big.t) :
  Big.coef y = 0 -> Big.div DP x y = Throw Big.DIV_BY_ZERO.
Proof. intros Hy. unfold Big.div. rewrite Hy. reflexivity. Qed.

Lemma div_zero_l (DP : nat) (x y : Big.t) :
  Big.coef x = 0 -> Big.coef y <> 0 -> Big.div DP x y = Ok (Big.mk 0 DP).
Proof. intros Hx Hy. rewrite div_ok by exact Hy. rewrite Hx. reflexivity. Qed.

Lemma div_self (DP : nat) (x : Big.t) :
  Big.coef x <> 0 -> Big.div DP x x = Ok (Big.mk (Big.pow10 DP) DP).
Proof.
  intros Hx. rewrite div_ok by exact Hx. do 2 f_equal.
  pose proof (pow10_pos (Big.scale x)). pose proof (pow10_pos DP).
  apply div_half_up_exact; nia.
Qed.

Lemma inject_Z_nonzero (z : Z) : z <> 0 -> ~ (inject_Z z == 0)%Q.
Proof. intros Hz Hc. apply Hz. apply inject_Z_injective. exact Hc. Qed.

Lemma Qabs_quotient_bound (u p d : Z) :
  0 < p -> d <> 0 -> Z.abs u <= Z.abs d ->
  (Qabs (inject_Z u / inject_Z (p * d)) <= 1 # Z.to_pos p)%Q.
Proof.
  intros Hp Hd Hu.
  assert (P : forall u' d', 0 < d' -> Z.abs u' <= d' ->
               (Qabs (inject_Z u' / inject_Z (p * d')) <= 1 # Z.to_pos p)%Q).
  { intros u' d' Hd' Hu'.
    rewrite <- (Z2Pos.id (p * d')) by nia. rewrite <- Qmake_Qdiv.
    rewrite <- Zabs_Qabs. unfold Qle; cbn [Qnum Qden].
    rewrite !Z2Pos.id by nia. nia. }
  destruct (Z_lt_le_dec 0 d) as [Hpos|Hneg].
  - apply P; lia.
  - assert (E : (inject_Z u / inject_Z (p * d) == inject_Z (- u) / inject_Z (p * - d))%Q).
    { rewrite !inject_Z_mult, !inject_Z_opp. field.
      split; apply inject_Z_nonzero; lia. }
    rewrite E. apply P; lia.
Qed.

Lemma toQ_def (x : Big.t) :
  (Big.toQ x == inject_Z (Big.coef x) / inject_Z (Big.pow10 (Big.scale x)))%Q.
Proof.
  unfold Big.toQ. rewrite Qmake_Qdiv.
  rewrite Z2Pos.id by apply pow10_pos. reflexivity.
Qed.

(** [div] returns the exact quotient rounded at the [DP]-th decimal. *)
Lemma div_accurate (DP : nat) (x y r : Big.t) :
  Big.div DP x y = Ok r ->
  (Qabs (Big.toQ r - Big.toQ x / Big.toQ y) <= 1 # Z.to_pos (2 * Big.pow10 DP))%Q.
Proof.
  unfold Big.div. destruct (Big.coef y =? 0) eqn:Ey; [discriminate|].
  apply Z.eqb_neq in Ey. intros [= <-].
  set (N := Big.coef x * Big.pow10 (Big.scale y) * Big.pow10 DP).
  set (D := Big.coef y * Big.pow10 (Big.scale x)).
  pose proof (pow10_pos (Big.scale x)) as Hsx.
  pose proof (pow10_pos (Big.scale y)) as Hsy.
  pose proof (pow10_pos DP) as HDP.
  assert (HD : D <> 0) by (unfold D; nia).
  pose proof (div_half_up_bound N D HD) as B.
  set (q := Big.div_half_up N D) in *.
  rewrite !toQ_def; cbn [Big.coef Big.scale].
  set (cx := Big.coef x) in *. set (cy := Big.coef y) in *.
  set (px := Big.pow10 (Big.scale x)) in *. set (py := Big.pow10 (Big.scale y)) in *.
  set (pd := Big.pow10 DP) in *.
  assert (E : (inject_Z q / inject_Z pd - inject_Z cx / inject_Z px / (inject_Z cy / inject_Z py)
               == inject_Z (2 * q * D - 2 * N) / inject_Z (2 * pd * D))%Q).
  { unfold D, N, Z.sub. rewrite !inject_Z_plus, !inject_Z_opp, !inject_Z_mult.
    field. repeat split; apply inject_Z_nonzero; lia. }
  rewrite E. apply Qabs_quotient_bound; lia.
Qed.

Lemma toQ_mul (x y : Big.t) : (Big.toQ (Big.mul x y) == Big.toQ x * Big.toQ y)%Q.
Proof.
  rewrite !toQ_def. unfold Big.mul; cbn [Big.coef Big.scale].
  rewrite pow10_add, !inject_Z_mult.
  pose proof (pow10_pos (Big.scale x)). pose proof (pow10_pos (Big.scale y)).
  field. split; apply inject_Z_nonzero; lia.
Qed.

Lemma toQ_add (x y : Big.t) : (Big.toQ (Big.add x y) == Big.toQ x + Big.toQ y)%Q.
Proof.
  rewrite !toQ_def. unfold Big.add; cbn [Big.coef Big.scale].
  rewrite pow10_add, inject_Z_plus, !inject_Z_mult.
  pose proof (pow10_pos (Big.scale x)). pose proof (pow10_pos (Big.scale y)).
  field. split; apply inject_Z_nonzero; lia.
Qed.

Lemma toQ_eq_iff (x y : Big.t) :
  (Big.toQ x == Big.toQ y)%Q <->
  Big.coef x * Big.pow10 (Big.scale y) = Big.coef y * Big.pow10 (Big.scale x).
Proof.
  unfold Big.toQ, Qeq; cbn [Qnum Qden].
  rewrite !Z2Pos.id by apply pow10_pos. reflexivity.
Qed.

Lemma eq_true_iff (x y : Big.t) : Big.eq x y = true <-> (Big.toQ x == Big.toQ y)%Q.
Proof.
  rewrite toQ_eq_iff. unfold Big.eq, Big.cmp.
  destruct (_ ?= _) eqn:E.
  - apply Z.compare_eq_iff in E. split; auto.
  - split; [discriminate|]. intros H. rewrite H, Z.compare_refl in E. discriminate.
  - split; [discriminate|]. intros H. rewrite H, Z.compare_refl in E. discriminate.
Qed.

Lemma toQ_fold_add {A} (f : A -> Big.t) (l : list A) (acc : Big.t) :
  (Big.toQ (fold_left (fun sum b => Big.add sum (f b)) l acc) == Big.toQ acc + Big.sumQ f l)%Q.
Proof.
  revert acc. induction l as [|b l IH]; intros acc; cbn [fold_left Big.sumQ fold_right].
  - ring.
  - rewrite IH, toQ_add. fold (Big.sumQ f l). ring.
Qed.

Lemma div_half_up_cancel (k a b : Z) :
  0 < k -> 0 <= a -> 0 < b -> Big.div_half_up (k * a) (k * b) = Big.div_half_up a b.
Proof.
  intros Hk Ha Hb. unfold Big.div_half_up.
  rewrite !Z.sgn_mul, (Z.sgn_pos k) by lia.
  rewrite !Z.abs_mul, (Z.abs_eq k) by lia.
  replace (2 * (k * Z.abs a) + k * Z.abs b) with (k * (2 * Z.abs a + Z.abs b)) by ring.
  replace (2 * (k * Z.abs b)) with (k * (2 * Z.abs b)) by ring.
  rewrite Z.div_mul_cancel_l by lia. ring.
Qed.

(** Dividing a positive decimal by [n] times itself gives [1 / n], rounded. *)
Lemma div_by_multiple (DP : nat) (x y : Big.t) (n : Z) :
  0 < n -> 0 < Big.coef x ->
  (Big.toQ y == inject_Z n * Big.toQ x)%Q ->
  Big.div DP x y = Ok (Big.mk (Big.div_half_up (Big.pow10 DP) n) DP).
Proof.
  intros Hn Hx E.
  pose proof (pow10_pos (Big.scale x)) as Hsx.
  pose proof (pow10_pos (Big.scale y)) as Hsy.
  pose proof (pow10_pos DP) as HDP.
  assert (Ez : Big.coef y * Big.pow10 (Big.scale x) = n * Big.coef x * Big.pow10 (Big.scale y)).
  { revert E. unfold Big.toQ, Qeq, Qmult, inject_Z; cbn [Qnum Qden].
    rewrite !Z2Pos.id by lia. rewrite Pos.mul_1_l. rewrite !Z2Pos.id by lia. lia. }
  assert (Hy : Big.coef y <> 0) by nia.
  rewrite div_ok by exact Hy. do 2 f_equal.
  rewrite Ez.
  replace (Big.coef x * Big.pow10 (Big.scale y) * Big.pow10 DP)
    with (Big.coef x * Big.pow10 (Big.scale y) * Big.pow10 DP) by ring.
  replace (n * Big.coef x * Big.pow10 (Big.scale y))
    with (Big.coef x * Big.pow10 (Big.scale y) * n) by ring.
  apply div_half_up_cancel; nia.
Qed.

Lemma sumQ_const {A} (f : A -> Big.t) (l : list A) (T : Big.t) :
  (forall b, In b l -> (Big.toQ (f b) == Big.toQ T)%Q) ->
  (Big.sumQ f l == inject_Z (Z.of_nat (length l)) * Big.toQ T)%Q.
Proof.
  induction l as [|b l IH]; intros H; cbn [Big.sumQ fold_right length].
  - ring.
  - fold (Big.sumQ f l). rewrite IH by (intros b' Hb'; apply H; right; exact Hb').
    rewrite (H b (or_introl eq_refl)).
    rewrite Nat2Z.inj_succ. unfold Z.succ. rewrite inject_Z_plus. ring.
Qed.

Lemma sumQ_plus {A} (f g : A -> Big.t) (l : list A) :
  (Big.sumQ f l + Big.sumQ g l == Big.sumQ (fun b => Big.add (f b) (g b)) l)%Q.
Proof.
  induction l as [|b l IH]; cbn [Big.sumQ fold_right].
  - ring.
  - fold (Big.sumQ f l) (Big.sumQ g l) (Big.sumQ (fun b => Big.add (f b) (g b)) l).
    rewrite <- IH, toQ_add. ring.
Qed.

Lemma fold_add_coef_zero {A} (f : A -> Big.t) (l : list A) (acc : Big.t) :
  (forall b, In b l -> Big.coef (f b) = 0) -> Big.coef acc = 0 ->
  Big.coef (fold_left (fun sum b => Big.add sum (f b)) l acc) = 0.
Proof.
  revert acc. induction l as [|b l IH]; intros acc H Hacc; cbn [fold_left].
  - exact Hacc.
  - apply IH.
    + intros b' Hb'. apply H. right. exact Hb'.
    + unfold Big.add; cbn [Big.coef]. rewrite Hacc, (H b (or_introl eq_refl)). reflexivity.
Qed.

End BigFacts.

(* ===================================================================== *)
(** * Facts about [mapM] *)

Module ResultFacts.

Lemma mapM_const {A B} (f : A -> result B) (l : list A) (y : B) :
  (forall x, In x l -> f x = Ok y) -> mapM f l = Ok (repeat y (length l)).
Proof.
  induction l as [|x l IH]; intros H; cbn [mapM length repeat].
  - reflexivity.
  - rewrite (H x (or_introl eq_refl)). cbn [rbind].
    rewrite IH by (intros x' Hx'; apply H; right; exact Hx'). reflexivity.
Qed.

Lemma mapM_ok {A B} (f : A -> result B) (l : list A) :
  (forall x, In x l -> exists y, f x = Ok y) -> exists ys, mapM f l = Ok ys.
Proof.
  induction l as [|x l IH]; intros H; cbn [mapM].
  - eexists. reflexivity.
  - destruct (H x (or_introl eq_refl)) as [y Hy]. rewrite Hy. cbn [rbind].
    destruct IH as [ys Hys]; [intros x' Hx'; apply H; right; exact Hx'|].
    rewrite Hys. eexists. reflexivity.
Qed.

End ResultFacts.

(* ===================================================================== *)
(** * Facts about number conversions *)

Module NumFacts.

Lemma round_half_even_exact (d k : Z) : 0 < d -> Num.round_half_even (k * d) d = k.
Proof.
  intros Hd. unfold Num.round_half_even.
  rewrite Z.mod_mul, Z.div_mul by lia.
  cbv zeta. rewrite Z.mul_0_r.
  destruct (0 ?= d) eqn:E; try reflexivity.
  - apply Z.compare_eq_iff in E. lia.
  - apply Z.compare_gt_iff in E. lia.
Qed.

(** A quotient of equal integers reads as the number one. *)
Lemma of_ratio_diag (n : Z) : 0 < n -> Num.of_ratio n n = 1%float.
Proof.
  intros Hn. unfold Num.of_ratio.
  destruct (n =? 0) eqn:E0; [apply Z.eqb_eq in E0; lia|].
  replace (Z.log2 n - Z.log2 n - 53) with (-53) by lia.
  cbv zeta.
  change (0 <=? -53) with false. cbv iota.
  change (- -53) with 53.
  replace (2 ^ 53 * n <=? n * 2 ^ 53) with true by (symmetry; apply Z.leb_le; lia).
  change (Z.max (-53 + 1) (-1074)) with (-52).
  change (0 <=? -52) with false. cbv iota.
  change (- -52) with 52.
  rewrite (Z.mul_comm n), round_half_even_exact by exact Hn.
  vm_compute. reflexivity.
Qed.

Lemma Number_zero (x : Big.t) : Big.coef x = 0 -> Num.Number x = 0%float.
Proof. intros H. unfold Num.Number. rewrite H. reflexivity. Qed.

Lemma Number_one (n : nat) : Num.Number (Big.mk (Big.pow10 n) n) = 1%float.
Proof.
  unfold Num.Number; cbn [Big.coef Big.scale].
  pose proof (BigFacts.pow10_pos n) as H.
  rewrite Z.abs_eq by lia.
  destruct (Big.pow10 n <? 0) eqn:E; [apply Z.ltb_lt in E; lia|].
  apply of_ratio_diag. exact H.
Qed.

End NumFacts.

(* ===================================================================== *)
(** * Facts about binary64 rounding

    Rounding to 53 bits, the relative error of a product, a sum and a
    difference of positive normal numbers, and of the number read from a
    decimal. *)

Module RoundFacts.
Import FloatValue.

(** *** Mantissa lengths *)

Lemma digits2_pos_upper (p : positive) : Zpos p < 2 ^ Zpos (digits2_pos p).
Proof.
  induction p as [p IH|p IH|]; cbn [digits2_pos].
  - rewrite Pos2Z.inj_succ, Z.pow_succ_r by lia. lia.
  - rewrite Pos2Z.inj_succ, Z.pow_succ_r by lia. lia.
  - reflexivity.
Qed.

Lemma digits2_pos_lower (p : positive) : 2 ^ (Zpos (digits2_pos p) - 1) <= Zpos p.
Proof.
  induction p as [p IH|p IH|]; cbn [digits2_pos].
  - rewrite Pos2Z.inj_succ. replace (Z.succ (Zpos (digits2_pos p)) - 1)
      with (Z.succ (Zpos (digits2_pos p) - 1)) by lia.
    rewrite Z.pow_succ_r by lia. lia.
  - rewrite Pos2Z.inj_succ. replace (Z.succ (Zpos (digits2_pos p)) - 1)
      with (Z.succ (Zpos (digits2_pos p) - 1)) by lia.
    rewrite Z.pow_succ_r by lia. lia.
  - reflexivity.
Qed.

Lemma digits2_pos_unique (p : positive) (k : Z) :
  2 ^ (k - 1) <= Zpos p < 2 ^ k -> Zpos (digits2_pos p) = k.
Proof.
  intros [Hlo Hhi].
  pose proof (digits2_pos_upper p) as Hu. pose proof (digits2_pos_lower p) as Hl.
  set (d := Zpos (digits2_pos p)) in *.
  assert (Hd : 0 < d) by (unfold d; lia).
  assert (Hk : 0 < k).
  { destruct (Z.lt_ge_cases 0 k) as [?|Hle]; [assumption|].
    exfalso. assert (2 ^ k <= 2 ^ 0) by (apply Z.pow_le_mono_r; lia).
    change (2 ^ 0) with 1 in *. lia. }
  destruct (Z.lt_trichotomy d k) as [Hlt|[Heq|Hgt]]; [|exact Heq|].
  - exfalso. assert (2 ^ d <= 2 ^ (k - 1)) by (apply Z.pow_le_mono_r; lia). lia.
  - exfalso. assert (2 ^ k <= 2 ^ (d - 1)) by (apply Z.pow_le_mono_r; lia). lia.
Qed.

(** *** Shifting a mantissa right *)

Lemma iter_pos_nat {A : Type} (f : A -> A) (p : positive) (x : A) :
  SpecFloat.iter_pos f p x = Nat.iter (Pos.to_nat p) f x.
Proof.
  revert x. induction p as [p IH|p IH|]; intros x; cbn [SpecFloat.iter_pos].
  - rewrite !IH, Pos2Nat.inj_xI.
    replace (S (2 * Pos.to_nat p))%nat with (Pos.to_nat p + (Pos.to_nat p + 1))%nat by lia.
    rewrite !Nat.iter_add. reflexivity.
  - rewrite !IH, Pos2Nat.inj_xO.
    replace (2 * Pos.to_nat p)%nat with (Pos.to_nat p + Pos.to_nat p)%nat by lia.
    rewrite Nat.iter_add. reflexivity.
  - reflexivity.
Qed.


Lemma shr_inv_start (M : Z) : 0 <= M -> shr_inv M 0 (Build_shr_record M false false).
Proof.
  intros H. split; [exact H|]. exists 0. cbn. lia.
Qed.

Lemma shr_inv_step (M t : Z) (mrs : shr_record) :
  0 <= t -> shr_inv M t mrs -> shr_inv M (t + 1) (shr_1 mrs).
Proof.
  intros Ht [Hm (rem & HM & Hrem & Hloc)].
  assert (Hp : 2 ^ (t + 1) = 2 * 2 ^ t) by (rewrite Z.pow_add_r by lia; lia).
  assert (Hpos : 0 < 2 ^ t) by (apply Z.pow_pos_nonneg; lia).
  destruct mrs as [m r s]. cbn [shr_m shr_r shr_s] in *.
  assert (Hor : (r || s = false -> rem = 0) /\ (r || s = true -> 0 < rem)).
  { destruct r, s; cbn; split; intros; try discriminate; lia. }
  destruct Hor as [Hor0 Hor1]. clear Hloc.
  unfold shr_inv, shr_1. rewrite Hp. clear Hp.
  set (X := 2 ^ t) in *. clearbody X.
  destruct m as [|p|p]; [| |lia].
  - cbn [shr_m shr_r shr_s]. split; [lia|]. exists rem.
    destruct (r || s) eqn:E; [specialize (Hor1 eq_refl)|specialize (Hor0 eq_refl)]; lia.
  - destruct p as [p|p|]; cbn [shr_m shr_r shr_s]; (split; [lia|]).
    + exists (X + rem). rewrite Pos2Z.inj_xI in HM.
      destruct (r || s) eqn:E; [specialize (Hor1 eq_refl)|specialize (Hor0 eq_refl)];
        (split; [rewrite HM; ring|lia]).
    + exists rem. rewrite Pos2Z.inj_xO in HM.
      destruct (r || s) eqn:E; [specialize (Hor1 eq_refl)|specialize (Hor0 eq_refl)];
        (split; [rewrite HM; ring|lia]).
    + exists (X + rem).
      destruct (r || s) eqn:E; [specialize (Hor1 eq_refl)|specialize (Hor0 eq_refl)];
        (split; [rewrite HM; ring|lia]).
Qed.

Lemma shr_inv_iter (M : Z) (n : nat) :
  0 <= M ->
  shr_inv M (Z.of_nat n) (Nat.iter n shr_1 (Build_shr_record M false false)).
Proof.
  intros H. induction n as [|n IH].
  - apply shr_inv_start, H.
  - rewrite Nat2Z.inj_succ. cbn [Nat.iter]. apply shr_inv_step; [lia|exact IH].
Qed.

(** Rounding the shifted mantissa to nearest, ties to even, is within half a
    unit of the last place kept. *)
Lemma round_nearest_even_shr (M t : Z) (mrs : shr_record) :
  0 <= t -> shr_inv M t mrs ->
  let R := round_nearest_even (shr_m mrs) (loc_of_shr_record mrs) in
  shr_m mrs <= R <= shr_m mrs + 1 /\ 2 * Z.abs (R * 2 ^ t - M) <= 2 ^ t.
Proof.
  intros Ht [Hm (rem & HM & Hrem & Hloc)]. cbv zeta.
  assert (Hpos : 0 < 2 ^ t) by (apply Z.pow_pos_nonneg; lia).
  destruct mrs as [m r s]. cbn [shr_m shr_r shr_s loc_of_shr_record] in *.
  destruct r, s; cbn [round_nearest_even]; try (split; [lia|nia]).
  destruct (Z.even m); split; try lia; nia.
Qed.

End RoundFacts.

Module RoundFacts2.
Import FloatValue RoundFacts.

Lemma fexp_normal (x : Z) : -1074 <= x - 53 -> fexp prec emax x = x - 53.
Proof. intros H. unfold fexp, SpecFloat.emin, prec, emax. lia. Qed.

(** Rounding a mantissa of at least 53 bits to 53 bits, in the normal
    range. *)
Lemma binary_round_aux_normal (p : positive) (e : Z) :
  let d := Zpos (digits2_pos p) in
  53 <= d -> -1074 <= d + e - 53 -> d + e <= 1023 ->
  exists m' e',
    binary_round_aux prec emax false (Zpos p) e loc_Exact = S754_finite false m' e' /\
    2 ^ 52 <= Zpos m' < 2 ^ 53 /\
    e <= e' /\ d + e - 53 <= e' <= d + e - 52 /\
    2 * Z.abs (Zpos m' * 2 ^ (e' - e) - Zpos p) <= 2 ^ (d - 53).
Proof.
  cbv zeta. set (d := Zpos (digits2_pos p)). intros Hd He Hov.
  pose proof (digits2_pos_upper p) as Hu. pose proof (digits2_pos_lower p) as Hl.
  fold d in Hu, Hl.
  unfold binary_round_aux, shr_fexp. cbn [Zdigits2]. fold d.
  rewrite (fexp_normal (d + e)) by lia.
  replace (d + e - 53 - e) with (d - 53) by lia.
  destruct (Z.eq_dec d 53) as [E|E].
  - (* already 53 bits *)
    rewrite E. cbn [Z.sub Z.add Z.opp Z.pos_sub shr shr_record_of_loc fst snd].
    change (53 - 53) with 0. cbn [shr shr_m round_nearest_even loc_of_shr_record Zdigits2].
    fold d. rewrite (fexp_normal (d + e)) by lia.
    replace (d + e - 53 - e) with 0 by lia. cbn [shr shr_record_of_loc shr_m].
    assert (Hle : (e <=? emax - prec) = true) by (apply Z.leb_le; unfold emax, prec; lia).
    rewrite Hle. exists p, e.
    split; [reflexivity|]. rewrite E in Hu, Hl. change (53 - 1) with 52 in Hl.
    split; [lia|]. split; [lia|]. split; [lia|].
    rewrite Z.sub_diag, Z.mul_1_r, Z.sub_diag. cbn. lia.
  - (* shift by t = d - 53 > 0 *)
    set (t := d - 53). assert (Ht : 0 < t) by (unfold t; lia).
    destruct t as [|q|q] eqn:Et; [lia| |lia].
    cbn [shr shr_record_of_loc]. rewrite iter_pos_nat.
    pose proof (shr_inv_iter (Zpos p) (Pos.to_nat q) ltac:(lia)) as Hinv.
    rewrite positive_nat_Z in Hinv.
    set (mrs := Nat.iter (Pos.to_nat q) shr_1 (Build_shr_record (Zpos p) false false)) in *.
    pose proof (round_nearest_even_shr (Zpos p) (Zpos q) mrs ltac:(lia) Hinv) as HR.
    cbv zeta in HR.
    set (R := round_nearest_even (shr_m mrs) (loc_of_shr_record mrs)) in *.
    destruct HR as [HRb HRe].
    destruct Hinv as [Hm0 (rem & HM & Hrem & _)].
    assert (Hd53 : d = Zpos q + 53) by lia.
    assert (Hpow : 2 ^ d = 2 ^ 53 * 2 ^ Zpos q)
      by (rewrite Hd53, Z.pow_add_r by lia; ring).
    assert (Hpow1 : 2 ^ (d - 1) = 2 ^ 52 * 2 ^ Zpos q).
    { replace (d - 1) with (52 + Zpos q) by lia. rewrite Z.pow_add_r by lia. ring. }
    assert (HX : 0 < 2 ^ Zpos q) by (apply Z.pow_pos_nonneg; lia).
    set (X := 2 ^ Zpos q) in *.
    assert (Hm052 : 2 ^ 52 <= shr_m mrs < 2 ^ 53).
    { rewrite Hpow in Hu. rewrite Hpow1 in Hl. split; nia. }
    assert (HR52 : 2 ^ 52 <= R <= 2 ^ 53) by lia.
    destruct R as [|r|r] eqn:ER; [lia| |lia].
    cbn [fst snd Zdigits2].
    destruct (Z.eq_dec (Zpos r) (2 ^ 53)) as [E53|E53].
    + (* the rounding carried into a 54th bit *)
      assert (r = 9007199254740992%positive) as -> by (apply Pos2Z.inj; exact E53).
      change (Zpos (digits2_pos 9007199254740992)) with 54.
      rewrite (fexp_normal (54 + (e + Zpos q))) by lia.
      replace (54 + (e + Zpos q) - 53 - (e + Zpos q)) with 1 by lia.
      cbn [shr SpecFloat.iter_pos shr_1 shr_m snd fst].
      assert (Hle : (e + Zpos q + 1 <=? emax - prec) = true)
        by (apply Z.leb_le; unfold emax, prec; lia).
      rewrite Hle. exists 4503599627370496%positive, (e + Zpos q + 1).
      split; [reflexivity|]. split; [cbn; lia|]. split; [lia|]. split; [lia|].
      replace (e + Zpos q + 1 - e) with (Zpos q + 1) by lia.
      rewrite Z.pow_add_r by lia. fold X.
      replace (d - 53) with (Zpos q) by lia. fold X.
      change (Z.pos 4503599627370496 * (X * 2 ^ 1)) with (2 ^ 52 * (X * 2)).
      rewrite E53 in HRe. change (2 ^ 53) with (2 ^ 52 * 2) in HRe.
      replace (2 ^ 52 * (X * 2)) with (2 ^ 52 * 2 * X) by ring. exact HRe.
    + assert (Hdr : Zpos (digits2_pos r) = 53).
      { apply digits2_pos_unique. change (53 - 1) with 52. lia. }
      rewrite Hdr, (fexp_normal (53 + (e + Zpos q))) by lia.
      replace (53 + (e + Zpos q) - 53 - (e + Zpos q)) with 0 by lia.
      cbn [shr shr_m snd fst].
      assert (Hle : (e + Zpos q <=? emax - prec) = true)
        by (apply Z.leb_le; unfold emax, prec; lia).
      rewrite Hle. exists r, (e + Zpos q).
      split; [reflexivity|]. split; [lia|]. split; [lia|]. split; [lia|].
      replace (e + Zpos q - e) with (Zpos q) by lia.
      replace (d - 53) with (Zpos q) by lia. fold X. exact HRe.
Qed.

End RoundFacts2.

Module FloatValueFacts.
Import RoundFacts RoundFacts2 FloatValue.

Lemma bpow_pos (e : Z) : (0 < bpow e)%Q.
Proof. apply Qpower_0_lt. reflexivity. Qed.

Lemma bpow_add (a b : Z) : (bpow (a + b) == bpow a * bpow b)%Q.
Proof. apply Qpower_plus. discriminate. Qed.

Lemma bpow_Z (e : Z) : 0 <= e -> (bpow e == inject_Z (2 ^ e))%Q.
Proof. intros H. unfold bpow. rewrite (Zpower_Qpower 2 e H). reflexivity. Qed.

Lemma bpow_le (a b : Z) : a <= b -> (bpow a <= bpow b)%Q.
Proof. intros H. apply Qpower_le_compat_l; [exact H|]. discriminate. Qed.

Lemma bpow_lt (a b : Z) : a < b -> (bpow a < bpow b)%Q.
Proof. intros H. apply Qpower_lt_compat_l; [exact H|]. reflexivity. Qed.

Lemma bpow_lt_inv (a b : Z) : (bpow a < bpow b)%Q -> a < b.
Proof. intros H. apply (Qpower_lt_compat_l_inv 2); [exact H|reflexivity]. Qed.

Lemma bpow_le_inv (a b : Z) : (bpow a <= bpow b)%Q -> a <= b.
Proof. intros H. apply (Qpower_le_compat_l_inv 2); [exact H|reflexivity]. Qed.

Lemma u_bpow : (u == bpow (-53))%Q.
Proof. reflexivity. Qed.

(** From the integers to the rationals: a mantissa [m'] at the exponent
    [e'] against the mantissa [p] at [e <= e']. *)
Lemma rounded_value (m' p : Z) (e e' : Z) (d : Z) :
  e <= e' -> 0 < p -> 2 ^ (d - 1) <= p -> 53 <= d ->
  2 * Z.abs (m' * 2 ^ (e' - e) - p) <= 2 ^ (d - 53) ->
  (Qabs (inject_Z m' * bpow e' - inject_Z p * bpow e) <= u * (inject_Z p * bpow e))%Q.
Proof.
  intros Hee Hp Hd H53 H.
  replace e' with (e + (e' - e)) at 1 by lia.
  rewrite bpow_add, (bpow_Z (e' - e)) by lia.
  set (X := 2 ^ (e' - e)) in *.
  assert (E : (inject_Z m' * (bpow e * inject_Z X) - inject_Z p * bpow e
               == inject_Z (m' * X - p) * bpow e)%Q).
  { unfold Z.sub. rewrite inject_Z_plus, inject_Z_opp, inject_Z_mult. ring. }
  rewrite E, Qabs_Qmult, (Qabs_pos (bpow e)) by (apply Qlt_le_weak, bpow_pos).
  rewrite Qmult_assoc. apply Qmult_le_compat_r; [|apply Qlt_le_weak, bpow_pos].
  change (Qabs (inject_Z (m' * X - p))) with (inject_Z (Z.abs (m' * X - p))).
  assert (Hz : 2 ^ 53 * Z.abs (m' * X - p) <= p).
  { assert (Hpw : 2 ^ (d - 1) = 2 ^ 52 * 2 ^ (d - 53)).
    { replace (d - 1) with (52 + (d - 53)) by lia. rewrite Z.pow_add_r by lia. ring. }
    assert (0 < 2 ^ (d - 53)) by (apply Z.pow_pos_nonneg; lia).
    change (2 ^ 53) with (2 * 2 ^ 52). nia. }
  unfold u, Qle; cbn [Qnum Qden Qmult inject_Z].
  change (Z.pos 9007199254740992) with (2 ^ 53). lia.
Qed.

End FloatValueFacts.

Module FloatOpFacts.
Import RoundFacts RoundFacts2 FloatValue FloatValueFacts.

Lemma pos_iter_xO (p k : positive) : Zpos (Pos.iter xO p k) = Zpos p * 2 ^ Zpos k.
Proof.
  induction k as [|k IH] using Pos.peano_ind.
  - cbn [Pos.iter]. rewrite Pos2Z.inj_xO. change (2 ^ 1) with 2. lia.
  - rewrite Pos.iter_succ, Pos2Z.inj_xO, IH, Pos2Z.inj_succ, Z.pow_succ_r by lia. ring.
Qed.

Lemma shl_align_value (p : positive) (e e' : Z) :
  e' <= e ->
  Zpos (fst (shl_align p e e')) = Zpos p * 2 ^ (e - e') /\ snd (shl_align p e e') = e'.
Proof.
  intros H. unfold shl_align.
  destruct (e' - e) as [|q|q] eqn:E; cbn [fst snd]; try lia.
  - replace (e - e') with 0 by lia. split; lia.
  - rewrite pos_iter_xO. replace (e - e') with (Zpos q) by lia. split; lia.
Qed.

Lemma shl_align_id (p : positive) (e e' : Z) : e <= e' -> shl_align p e e' = (p, e).
Proof.
  intros H. unfold shl_align. destruct (e' - e) as [|q|q] eqn:E; try reflexivity. lia.
Qed.

Lemma digits_value_bounds (p : positive) (e : Z) :
  (bpow (Zpos (digits2_pos p) - 1 + e) <= inject_Z (Zpos p) * bpow e
   /\ inject_Z (Zpos p) * bpow e < bpow (Zpos (digits2_pos p) + e))%Q.
Proof.
  pose proof (digits2_pos_upper p) as Hu. pose proof (digits2_pos_lower p) as Hl.
  rewrite !bpow_add, (bpow_Z (Zpos (digits2_pos p) - 1)), (bpow_Z (Zpos (digits2_pos p))) by lia.
  pose proof (bpow_pos e) as He.
  split.
  - apply Qmult_le_compat_r; [|apply Qlt_le_weak, He].
    rewrite <- Zle_Qle. exact Hl.
  - apply Qmult_lt_compat_r; [exact He|]. rewrite <- Zlt_Qlt. exact Hu.
Qed.

Lemma exact_value (m' p e e' : Z) :
  e <= e' -> m' * 2 ^ (e' - e) = p ->
  (inject_Z m' * bpow e' == inject_Z p * bpow e)%Q.
Proof.
  intros Hee <-. replace e' with (e' - e + e) at 1 by lia.
  rewrite bpow_add, (bpow_Z (e' - e)), inject_Z_mult by lia. ring.
Qed.

(** Rounding a positive [p * 2^e] in the normal range to a number. *)
Lemma binary_round_normal (p : positive) (e : Z) :
  let d := Zpos (digits2_pos p) in
  -1074 <= d + e - 53 -> d + e <= 1023 ->
  exists m' e',
    binary_round prec emax false p e = S754_finite false m' e' /\
    2 ^ 52 <= Zpos m' < 2 ^ 53 /\ -1074 <= e' <= 971 /\
    (Qabs (inject_Z (Zpos m') * bpow e' - inject_Z (Zpos p) * bpow e)
     <= u * (inject_Z (Zpos p) * bpow e))%Q /\
    (d <= 53 -> (inject_Z (Zpos m') * bpow e' == inject_Z (Zpos p) * bpow e)%Q).
Proof.
  cbv zeta. set (d := Zpos (digits2_pos p)). intros Hlo Hhi.
  pose proof (digits2_pos_upper p) as Hu. pose proof (digits2_pos_lower p) as Hl.
  fold d in Hu, Hl.
  unfold binary_round. fold d. rewrite (fexp_normal (d + e)) by lia.
  destruct (Z_lt_le_dec d 53) as [Hd|Hd].
  - (* fewer than 53 bits: the mantissa is padded and nothing is rounded *)
    destruct (shl_align_value p e (d + e - 53) ltac:(lia)) as [Hv He'].
    destruct (shl_align p e (d + e - 53)) as [pz ez]. cbn [fst snd] in Hv, He'. subst ez.
    replace (e - (d + e - 53)) with (53 - d) in Hv by lia.
    assert (Hdz : Zpos (digits2_pos pz) = 53).
    { apply digits2_pos_unique. rewrite Hv. change (53 - 1) with 52.
      assert (E1 : 2 ^ 52 = 2 ^ (d - 1) * 2 ^ (53 - d)).
      { rewrite <- Z.pow_add_r by lia. f_equal. lia. }
      assert (E2 : 2 ^ 53 = 2 ^ d * 2 ^ (53 - d)).
      { rewrite <- Z.pow_add_r by lia. f_equal. lia. }
      assert (0 < 2 ^ (53 - d)) by (apply Z.pow_pos_nonneg; lia).
      rewrite E1, E2. split; nia. }
    pose proof (binary_round_aux_normal pz (d + e - 53)) as Hn. cbv zeta in Hn.
    rewrite Hdz in Hn.
    destruct Hn as (m' & e' & Hr & Hm & He & Hee & Herr); [lia|lia|lia|].
    exists m', e'. split; [exact Hr|]. split; [exact Hm|]. split; [lia|].
    assert (Hval : (inject_Z (Zpos p) * bpow e == inject_Z (Zpos pz) * bpow (d + e - 53))%Q).
    { rewrite Hv, inject_Z_mult, <- (bpow_Z (53 - d)) by lia.
      rewrite <- Qmult_assoc, <- bpow_add.
      replace (53 - d + (d + e - 53)) with e by lia. reflexivity. }
    rewrite Hval.
    pose proof (digits2_pos_lower pz) as Hlz. rewrite Hdz in Hlz.
    split; [apply (rounded_value (Zpos m') (Zpos pz) (d + e - 53) e' 53); lia|].
    intros _. apply exact_value; lia.
  - rewrite shl_align_id by lia.
    pose proof (binary_round_aux_normal p e) as Hn. cbv zeta in Hn. fold d in Hn.
    destruct Hn as (m' & e' & Hr & Hm & He & Hee & Herr); [lia|lia|lia|].
    exists m', e'. split; [exact Hr|]. split; [exact Hm|]. split; [lia|].
    split; [apply (rounded_value (Zpos m') (Zpos p) e e' d); lia|].
    intros Hd53. assert (d = 53) as E53 by lia. rewrite E53 in Herr.
    apply exact_value; lia.
Qed.

(** *** The operations on positive normal numbers *)

Lemma pnormal_value (x : float) (m : positive) (e : Z) :
  Prim2SF x = S754_finite false m e -> (value x == inject_Z (Zpos m) * bpow e)%Q.
Proof. intros H. unfold value. rewrite H. reflexivity. Qed.

Lemma pnormal_pos (x : float) : pnormal x -> (0 < value x)%Q.
Proof.
  intros (m & e & H & _ & _). rewrite (pnormal_value x m e H).
  apply Qmult_lt_0_compat; [|apply bpow_pos]. reflexivity.
Qed.

Lemma pnormal_bounds (x : float) (m : positive) (e : Z) :
  Prim2SF x = S754_finite false m e -> 2 ^ 52 <= Zpos m < 2 ^ 53 ->
  (bpow (52 + e) <= value x /\ value x < bpow (53 + e))%Q.
Proof.
  intros H Hm. rewrite (pnormal_value x m e H).
  assert (Hd : Zpos (digits2_pos m) = 53)
    by (apply digits2_pos_unique; change (53 - 1) with 52; exact Hm).
  pose proof (digits_value_bounds m e) as Hb. rewrite Hd in Hb.
  change (53 - 1 + e) with (52 + e) in Hb. exact Hb.
Qed.

(** What a rounded result gives back. *)
Lemma rounded_pnormal (z : float) (m' : positive) (e' : Z) (X : Q) :
  Prim2SF z = S754_finite false m' e' ->
  2 ^ 52 <= Zpos m' < 2 ^ 53 -> -1074 <= e' <= 971 ->
  (Qabs (inject_Z (Zpos m') * bpow e' - X) <= u * X)%Q ->
  pnormal z /\ (Qabs (value z - X) <= u * X)%Q.
Proof.
  intros H Hm He Herr. split.
  - exists m', e'. split; [exact H|]. split; assumption.
  - rewrite (pnormal_value z m' e' H). exact Herr.
Qed.

Lemma Qlt_bpow_digits (p : positive) (e b : Z) :
  (inject_Z (Zpos p) * bpow e < bpow b)%Q -> Zpos (digits2_pos p) + e <= b.
Proof.
  intros H. pose proof (digits_value_bounds p e) as [Hl _].
  assert (Hlt : (bpow (Zpos (digits2_pos p) - 1 + e) < bpow b)%Q)
    by (eapply Qle_lt_trans; eassumption).
  apply bpow_lt_inv in Hlt. lia.
Qed.

Lemma Qle_bpow_digits (p : positive) (e a : Z) :
  (bpow a <= inject_Z (Zpos p) * bpow e)%Q -> a < Zpos (digits2_pos p) + e.
Proof.
  intros H. pose proof (digits_value_bounds p e) as [_ Hu].
  assert (Hlt : (bpow a < bpow (Zpos (digits2_pos p) + e))%Q)
    by (eapply Qle_lt_trans; eassumption).
  apply bpow_lt_inv in Hlt. exact Hlt.
Qed.

Theorem mul_pnormal (x y : float) :
  pnormal x -> pnormal y ->
  (bpow (-1000) <= value x * value y)%Q -> (value x * value y < bpow 1000)%Q ->
  pnormal (x * y) /\ (Qabs (value (x * y) - value x * value y) <= u * (value x * value y))%Q.
Proof.
  intros (mx & ex & Hx & Hmx & Hex) (my & ey & Hy & Hmy & Hey) Hlo Hhi.
  rewrite (pnormal_value x mx ex Hx), (pnormal_value y my ey Hy) in *.
  assert (Hval : (inject_Z (Zpos mx) * bpow ex * (inject_Z (Zpos my) * bpow ey)
                  == inject_Z (Zpos (mx * my)) * bpow (ex + ey))%Q).
  { rewrite Pos2Z.inj_mul, inject_Z_mult, bpow_add. ring. }
  rewrite Hval in *.
  pose proof (Qlt_bpow_digits _ _ _ Hhi) as Hd1.
  pose proof (Qle_bpow_digits _ _ _ Hlo) as Hd2.
  assert (Hd : 105 <= Zpos (digits2_pos (mx * my))).
  { pose proof (digits2_pos_upper (mx * my)) as Hu.
    destruct (Z_lt_le_dec (Zpos (digits2_pos (mx * my))) 105) as [Hc|Hc]; [|exact Hc].
    exfalso. assert (2 ^ Zpos (digits2_pos (mx * my)) <= 2 ^ 104)
      by (apply Z.pow_le_mono_r; lia).
    rewrite Pos2Z.inj_mul in Hu. change (2 ^ 104) with (2 ^ 52 * 2 ^ 52) in H. nia. }
  pose proof (binary_round_aux_normal (mx * my) (ex + ey)) as Hn. cbv zeta in Hn.
  destruct Hn as (m' & e' & Hr & Hm & He & Hee & Herr); [lia|lia|lia|].
  apply (rounded_pnormal _ m' e').
  - rewrite FloatAxioms.mul_spec, Hx, Hy. exact Hr.
  - exact Hm.
  - lia.
  - pose proof (digits2_pos_lower (mx * my)) as Hl.
    apply (rounded_value (Zpos m') (Zpos (mx * my)) (ex + ey) e'
             (Zpos (digits2_pos (mx * my)))); lia.
Qed.

End FloatOpFacts.

Module FloatOpFacts2.
Import RoundFacts RoundFacts2 FloatValue FloatValueFacts FloatOpFacts.

Lemma aligned_value (m : positive) (e ez : Z) :
  ez <= e ->
  (inject_Z (Zpos (fst (shl_align m e ez))) * bpow ez == inject_Z (Zpos m) * bpow e)%Q.
Proof.
  intros H. destruct (shl_align_value m e ez H) as [Hv _].
  rewrite Hv, inject_Z_mult, <- (bpow_Z (e - ez)) by lia.
  rewrite <- Qmult_assoc, <- bpow_add. replace (e - ez + ez) with e by lia. reflexivity.
Qed.

Theorem add_pnormal (x y : float) :
  pnormal x -> pnormal y -> (value x + value y < bpow 1023)%Q ->
  pnormal (x + y) /\ (Qabs (value (x + y) - (value x + value y)) <= u * (value x + value y))%Q.
Proof.
  intros (mx & ex & Hx & Hmx & Hex) (my & ey & Hy & Hmy & Hey) Hhi.
  rewrite (pnormal_value x mx ex Hx), (pnormal_value y my ey Hy) in *.
  set (ez := Z.min ex ey).
  pose proof (aligned_value mx ex ez ltac:(unfold ez; lia)) as Ha.
  pose proof (aligned_value my ey ez ltac:(unfold ez; lia)) as Hb.
  destruct (shl_align_value mx ex ez ltac:(unfold ez; lia)) as [Hva _].
  set (a := fst (shl_align mx ex ez)) in *. set (b := fst (shl_align my ey ez)) in *.
  assert (Hval : (inject_Z (Zpos mx) * bpow ex + inject_Z (Zpos my) * bpow ey
                  == inject_Z (Zpos (a + b)) * bpow ez)%Q).
  { rewrite <- Ha, <- Hb, Pos2Z.inj_add, inject_Z_plus. ring. }
  rewrite Hval in *.
  pose proof (Qlt_bpow_digits _ _ _ Hhi) as Hd1.
  assert (Hd : 53 <= Zpos (digits2_pos (a + b))).
  { pose proof (digits2_pos_upper (a + b)) as Hu.
    destruct (Z_lt_le_dec (Zpos (digits2_pos (a + b))) 53) as [Hc|Hc]; [|exact Hc].
    exfalso. assert (2 ^ Zpos (digits2_pos (a + b)) <= 2 ^ 52)
      by (apply Z.pow_le_mono_r; lia).
    assert (0 < 2 ^ (ex - ez)) by (apply Z.pow_pos_nonneg; unfold ez; lia).
    rewrite Pos2Z.inj_add in Hu. nia. }
  pose proof (binary_round_normal (a + b) ez) as Hn. cbv zeta in Hn.
  destruct Hn as (m' & e' & Hr & Hm & He & Herr & _); [unfold ez in *; lia|lia|].
  apply (rounded_pnormal _ m' e'); try assumption.
  rewrite FloatAxioms.add_spec, Hx, Hy. exact Hr.
Qed.

Lemma add_zero_l (y : float) : pnormal y -> (0 + y)%float = y.
Proof.
  intros (my & ey & Hy & _). apply Prim2SF_inj.
  rewrite FloatAxioms.add_spec, Hy. reflexivity.
Qed.

Theorem sub_pnormal (x y : float) :
  pnormal x -> pnormal y ->
  (bpow (-900) <= value y)%Q -> (value y < value x)%Q -> (value x < bpow 1000)%Q ->
  pnormal (x - y) /\ (Qabs (value (x - y) - (value x - value y)) <= u * (value x - value y))%Q.
Proof.
  intros (mx & ex & Hx & Hmx & Hex) (my & ey & Hy & Hmy & Hey) Hlo Hlt Hhi.
  pose proof (pnormal_bounds x mx ex Hx Hmx) as [Hx1 Hx2].
  pose proof (pnormal_bounds y my ey Hy Hmy) as [Hy1 Hy2].
  assert (Hey' : -953 < ey).
  { assert (H : (bpow (-900) < bpow (53 + ey))%Q) by (eapply Qle_lt_trans; eassumption).
    apply bpow_lt_inv in H. lia. }
  assert (Hex' : -953 < ex).
  { assert (H : (bpow (-900) < bpow (53 + ex))%Q).
    { eapply Qle_lt_trans; [exact Hlo|]. exact (Qlt_trans _ _ _ Hlt Hx2). }
    apply bpow_lt_inv in H. lia. }
  rewrite (pnormal_value x mx ex Hx), (pnormal_value y my ey Hy) in *.
  set (ez := Z.min ex ey).
  pose proof (aligned_value mx ex ez ltac:(unfold ez; lia)) as Ha.
  pose proof (aligned_value my ey ez ltac:(unfold ez; lia)) as Hb.
  set (a := fst (shl_align mx ex ez)) in *. set (b := fst (shl_align my ey ez)) in *.
  assert (Hab : Zpos b < Zpos a).
  { rewrite <- Ha, <- Hb in Hlt.
    apply Qmult_lt_r in Hlt; [|apply bpow_pos]. rewrite <- Zlt_Qlt in Hlt. exact Hlt. }
  destruct (Zpos a - Zpos b) as [|c|c] eqn:EM; [lia| |lia].
  assert (Hval : (inject_Z (Zpos mx) * bpow ex - inject_Z (Zpos my) * bpow ey
                  == inject_Z (Zpos c) * bpow ez)%Q).
  { rewrite <- Ha, <- Hb, <- EM. unfold Z.sub. rewrite inject_Z_plus, inject_Z_opp. ring. }
  rewrite Hval in *.
  assert (Hhi' : (inject_Z (Zpos c) * bpow ez < bpow 1000)%Q).
  { rewrite <- Hval. eapply Qle_lt_trans; [|exact Hhi].
    assert (0 <= inject_Z (Zpos my) * bpow ey)%Q.
    { apply Qmult_le_0_compat; [discriminate|apply Qlt_le_weak, bpow_pos]. }
    lra. }
  pose proof (Qlt_bpow_digits _ _ _ Hhi') as Hd1.
  pose proof (binary_round_normal c ez) as Hn. cbv zeta in Hn.
  destruct Hn as (m' & e' & Hr & Hm & He & Herr & _); [unfold ez in *; lia|lia|].
  apply (rounded_pnormal _ m' e'); try assumption.
  rewrite FloatAxioms.sub_spec, Hx, Hy. unfold SF64sub, SFsub.
  fold ez. cbn [cond_Zopp]. fold a b. rewrite EM. exact Hr.
Qed.

Lemma one_pnormal : pnormal 1 /\ (value 1 == 1)%Q.
Proof.
  split.
  - exists 4503599627370496%positive, (-52). split; [reflexivity|]. split; cbn; lia.
  - reflexivity.
Qed.

End FloatOpFacts2.

Module NumberFacts.
Import RoundFacts RoundFacts2 FloatValue FloatValueFacts FloatOpFacts FloatOpFacts2.

Lemma round_half_even_bound (N d : Z) :
  0 <= N -> 0 < d ->
  N / d <= Num.round_half_even N d <= N / d + 1 /\
  2 * Z.abs (Num.round_half_even N d * d - N) <= d.
Proof.
  intros HN Hd. unfold Num.round_half_even. cbv zeta.
  pose proof (Z.div_mod N d ltac:(lia)) as E.
  pose proof (Z.mod_pos_bound N d Hd) as Hr.
  set (q := N / d) in *. set (r := N mod d) in *.
  destruct (Z.compare_spec (2 * r) d) as [H|H|H].
  - destruct (Z.even q); split; try lia; nia.
  - split; [lia|nia].
  - split; [lia|nia].
Qed.

(** The number made from an integer significand below [2^53] and an
    exponent, as [of_ratio] makes it. *)
Lemma ldexp_of_uint63 (m k : Z) :
  2 ^ 52 <= m <= 2 ^ 53 -> -1074 <= k <= 960 ->
  pnormal (Z.ldexp (of_uint63 (Uint63.of_Z m)) k) /\
  (value (Z.ldexp (of_uint63 (Uint63.of_Z m)) k) == inject_Z m * bpow k)%Q.
Proof.
  intros Hm Hk.
  assert (Hto : Uint63Axioms.to_Z (Uint63.of_Z m) = m).
  { rewrite Uint63.of_Z_spec. apply Z.mod_small.
    change Uint63Axioms.wB with (2 ^ 63). change (2 ^ 53) with 9007199254740992 in Hm.
    change (2 ^ 63) with 9223372036854775808. lia. }
  assert (H1 : exists m1 e1,
             Prim2SF (of_uint63 (Uint63.of_Z m)) = S754_finite false m1 e1 /\
             2 ^ 52 <= Zpos m1 < 2 ^ 53 /\ 0 <= e1 <= 1 /\
             (inject_Z (Zpos m1) * bpow e1 == inject_Z m)%Q).
  { rewrite FloatAxioms.of_uint63_spec, Hto.
    destruct m as [|pm|pm]; [lia| |lia]. cbn [binary_normalize].
    destruct (Z.eq_dec (Zpos pm) (2 ^ 53)) as [E|E].
    - assert (pm = 9007199254740992%positive) as -> by (apply Pos2Z.inj; exact E).
      exists 4503599627370496%positive, 1. split; [vm_compute; reflexivity|].
      split; [cbn; lia|]. split; [lia|]. reflexivity.
    - assert (Hd : Zpos (digits2_pos pm) = 53)
        by (apply digits2_pos_unique; change (53 - 1) with 52; lia).
      pose proof (binary_round_normal pm 0) as Hn. cbv zeta in Hn. rewrite Hd in Hn.
      destruct Hn as (m1 & e1 & Hr & Hm1 & He1 & _ & Hex); [lia|lia|].
      specialize (Hex ltac:(lia)).
      assert (He10 : e1 = 0).
      { pose proof (digits_value_bounds m1 e1) as [Hb1 Hb2].
        assert (Hdm : Zpos (digits2_pos m1) = 53)
          by (apply digits2_pos_unique; change (53 - 1) with 52; lia).
        rewrite Hdm, Hex in Hb1, Hb2. change (bpow 0) with 1%Q in Hb1, Hb2.
        rewrite Qmult_1_r in Hb1, Hb2.
        pose proof (digits_value_bounds pm 0) as [Hc1 Hc2]. rewrite Hd in Hc1, Hc2.
        change (bpow 0) with 1%Q in Hc1, Hc2. rewrite Qmult_1_r in Hc1, Hc2.
        assert (L1 : (bpow (53 - 1 + e1) < bpow (53 + 0))%Q)
          by (eapply Qle_lt_trans; eassumption).
        assert (L2 : (bpow (53 - 1 + 0) < bpow (53 + e1))%Q)
          by (eapply Qle_lt_trans; eassumption).
        apply bpow_lt_inv in L1, L2. lia. }
      subst e1. exists m1, 0. split; [exact Hr|]. split; [exact Hm1|]. split; [lia|].
      rewrite Hex. change (bpow 0) with 1%Q. ring. }
  destruct H1 as (m1 & e1 & Hp & Hm1 & He1 & Hv1).
  assert (Hd1 : Zpos (digits2_pos m1) = 53)
    by (apply digits2_pos_unique; change (53 - 1) with 52; lia).
  pose proof (binary_round_normal m1 (e1 + k)) as Hn. cbv zeta in Hn. rewrite Hd1 in Hn.
  destruct Hn as (m2 & e2 & Hr & Hm2 & He2 & _ & Hex); [lia|lia|].
  specialize (Hex ltac:(lia)).
  assert (Hsf : Prim2SF (Z.ldexp (of_uint63 (Uint63.of_Z m)) k) = S754_finite false m2 e2).
  { rewrite Z_ldexp_spec, Hp. exact Hr. }
  split.
  - exists m2, e2. split; [exact Hsf|]. split; assumption.
  - rewrite (pnormal_value _ m2 e2 Hsf), Hex, bpow_add, <- Hv1. ring.
Qed.

End NumberFacts.

Module NumberFacts2.
Import RoundFacts RoundFacts2 FloatValue FloatValueFacts FloatOpFacts FloatOpFacts2 NumberFacts.

Lemma half_unit_relative (m y B : Q) :
  (0 < B)%Q -> (Qabs (m - y) <= 1 # 2)%Q -> (inject_Z (2 ^ 52) <= y)%Q ->
  (Qabs (m * B - y * B) <= u * (y * B))%Q.
Proof.
  intros HB Hm Hy.
  assert (E : (m * B - y * B == (m - y) * B)%Q) by ring.
  rewrite E, Qabs_Qmult, (Qabs_pos B) by (apply Qlt_le_weak; exact HB).
  apply Qle_trans with ((1 # 2) * B)%Q.
  - apply Qmult_le_compat_r; [exact Hm|apply Qlt_le_weak; exact HB].
  - rewrite Qmult_assoc. apply Qmult_le_compat_r; [|apply Qlt_le_weak; exact HB].
    apply Qle_trans with (u * inject_Z (2 ^ 52))%Q; [apply Qle_bool_iff; reflexivity|].
    apply Qmult_le_l; [reflexivity|exact Hy].
Qed.

Lemma Zquot_Q (N d m : Z) :
  0 < d -> 2 * Z.abs (m * d - N) <= d ->
  (Qabs (inject_Z m - inject_Z N / inject_Z d) <= 1 # 2)%Q.
Proof.
  intros Hd H.
  assert (Hq : (0 < inject_Z d)%Q) by (rewrite (Zlt_Qlt 0 d) in Hd; exact Hd).
  assert (E : (inject_Z m - inject_Z N / inject_Z d
               == inject_Z (m * d - N) / inject_Z d)%Q).
  { unfold Z.sub. rewrite inject_Z_plus, inject_Z_opp, inject_Z_mult. field.
    intros Hc. rewrite Hc in Hq. discriminate. }
  rewrite E. unfold Qdiv. rewrite Qabs_Qmult.
  change (Qabs (inject_Z (m * d - N))) with (inject_Z (Z.abs (m * d - N))).
  rewrite (Qabs_pos (/ inject_Z d)) by (apply Qlt_le_weak, Qinv_lt_0_compat; exact Hq).
  apply Qle_shift_div_r; [exact Hq|].
  assert (E2 : ((1 # 2) * inject_Z d == inject_Z d / 2)%Q) by (field).
  apply Qle_trans with (inject_Z d / 2)%Q; [|rewrite E2; apply Qle_refl].
  apply Qle_shift_div_l; [reflexivity|].
  change 2%Q with (inject_Z 2). rewrite <- inject_Z_mult, <- Zle_Qle. lia.
Qed.

(** [of_ratio] on a ratio in (0, 1] above [2^-1000]: a normal number, within
    half a unit in the last place of the ratio. *)
Theorem of_ratio_pnormal (n d : Z) :
  0 < n -> n <= d -> d <= n * 2 ^ 1000 ->
  pnormal (Num.of_ratio n d) /\
  (Qabs (value (Num.of_ratio n d) - inject_Z n / inject_Z d)
   <= u * (inject_Z n / inject_Z d))%Q.
Proof.
  intros Hn Hnd Hdn.
  assert (Hd : 0 < d) by lia.
  unfold Num.of_ratio.
  destruct (n =? 0) eqn:En; [apply Z.eqb_eq in En; lia|]. cbv zeta.
  pose proof (Z.log2_spec n Hn) as [Hn1 Hn2]. pose proof (Z.log2_spec d Hd) as [Hd1 Hd2].
  pose proof (Z.log2_nonneg n) as Hln0. pose proof (Z.log2_nonneg d) as Hld0.
  assert (Hle : Z.log2 n <= Z.log2 d) by (apply Z.log2_le_mono; lia).
  assert (Hge : Z.log2 d <= Z.log2 n + 1000).
  { pose proof (Z.log2_le_mono d (n * 2 ^ 1000) Hdn) as H.
    rewrite Z.log2_mul_pow2 in H by lia. lia. }
  set (ln := Z.log2 n) in *. set (ld := Z.log2 d) in *.
  set (k0 := ln - ld - 53).
  assert (Hk0 : -1053 <= k0 <= -53) by (unfold k0; lia).
  assert (E0 : (0 <=? k0) = false) by (apply Z.leb_gt; lia). rewrite E0.
  rewrite !Z.pow_succ_r in * by lia.
  (* n * 2^(-k0) against 2^53 * d *)
  assert (HP : 2 ^ (- k0) * 2 ^ ln = 2 ^ 53 * 2 ^ ld).
  { rewrite <- !Z.pow_add_r by lia. f_equal. unfold k0. lia. }
  assert (HPpos : 0 < 2 ^ (- k0)) by (apply Z.pow_pos_nonneg; lia).
  assert (Hlnpos : 0 < 2 ^ ln) by (apply Z.pow_pos_nonneg; lia).
  assert (Hldpos : 0 < 2 ^ ld) by (apply Z.pow_pos_nonneg; lia).
  assert (HnP1 : 2 ^ 53 * 2 ^ ld <= n * 2 ^ (- k0)) by nia.
  assert (HnP2 : n * 2 ^ (- k0) < 2 * (2 ^ 53 * 2 ^ ld)) by nia.
  set (k := Z.max (if 2 ^ 53 * d <=? n * 2 ^ (- k0) then k0 + 1 else k0) (-1074)).
  assert (Hk : -1053 <= k <= -52 /\
               2 ^ 52 * d <= n * 2 ^ (- k) < 2 ^ 53 * d).
  { unfold k. destruct (Z.leb_spec (2 ^ 53 * d) (n * 2 ^ (- k0))) as [Ha|Ha].
    - rewrite Z.max_l by lia. split; [lia|].
      assert (E : 2 ^ (- k0) = 2 * 2 ^ (- (k0 + 1))).
      { rewrite <- Z.pow_succ_r by lia. f_equal. lia. }
      rewrite E in *. change (2 ^ 53) with (2 * 2 ^ 52) in *. lia.
    - rewrite Z.max_l by lia. split; [lia|].
      change (2 ^ 53) with (2 * 2 ^ 52) in *. lia. }
  destruct Hk as [Hk HN].
  assert (Ek : (0 <=? k) = false) by (apply Z.leb_gt; lia). rewrite Ek.
  set (N := n * 2 ^ (- k)) in *.
  assert (HNpos : 0 <= N) by (change (2 ^ 52) with 4503599627370496 in HN; lia).
  destruct (round_half_even_bound N d HNpos Hd) as [Hq Herr].
  set (m := Num.round_half_even N d) in *.
  assert (Hm : 2 ^ 52 <= m <= 2 ^ 53).
  { assert (2 ^ 52 <= N / d) by (apply Z.div_le_lower_bound; lia).
    assert (N / d < 2 ^ 53) by (apply Z.div_lt_upper_bound; lia).
    lia. }
  destruct (ldexp_of_uint63 m k Hm ltac:(lia)) as [Hp Hv].
  split; [exact Hp|]. rewrite Hv.
  assert (Hq0 : (0 < inject_Z d)%Q) by (rewrite (Zlt_Qlt 0 d) in Hd; exact Hd).
  assert (Hnz : ~ (inject_Z d == 0)%Q) by (intros Hc; rewrite Hc in Hq0; discriminate).
  assert (EN : (inject_Z n / inject_Z d == inject_Z N / inject_Z d * bpow k)%Q).
  { unfold N. rewrite inject_Z_mult, <- (bpow_Z (- k)) by lia.
    assert (Eb : (bpow (- k) * bpow k == 1)%Q).
    { rewrite <- bpow_add. replace (- k + k) with 0 by lia. reflexivity. }
    transitivity (inject_Z n / inject_Z d * (bpow (- k) * bpow k))%Q.
    - rewrite Eb. ring.
    - field. exact Hnz. }
  rewrite EN.
  apply half_unit_relative.
  - apply bpow_pos.
  - apply Zquot_Q; assumption.
  - apply Qle_shift_div_l; [exact Hq0|].
    rewrite <- inject_Z_mult, <- Zle_Qle. lia.
Qed.

End NumberFacts2.

(* ===================================================================== *)
(** * The sum of squares of equal shares *)

Module ErrorBounds.
Local Open Scope Q_scope.
Import FloatValue.

Ltac unabs :=
  repeat match goal with
         | H : Qabs _ <= _ |- _ => apply Qabs_Qle_condition in H; destruct H
         end;
  try (apply Qabs_Qle_condition; split).

(** One more addition of [q] to a sum of [k] of them. *)
Lemma acc_step (k w Vq Va Va' : Q) :
  1 <= k -> k * u <= 1 -> 0 <= Vq -> w == u * Vq ->
  Qabs (Va - k * Vq) <= k * k * w ->
  Qabs (Va' - (Va + Vq)) <= u * (Va + Vq) ->
  Qabs (Va' - (k + 1) * Vq) <= (k + 1) * (k + 1) * w.
Proof.
  intros Hk Hku HVq Hw HA HB. unfold u in *. unabs.
  - assert (0 <= w) by (rewrite Hw; nra).
    assert (k * k * w * (1 # 9007199254740992) <= k * w) by nra.
    nra.
  - assert (0 <= w) by (rewrite Hw; nra).
    assert (k * k * w * (1 # 9007199254740992) <= k * w) by nra.
    nra.
Qed.

End ErrorBounds.

Module ErrorBounds2.
Local Open Scope Q_scope.
Import FloatValue ErrorBounds.

Section Shares.

Variables (N r dq Vs Vq : Q).
Hypothesis HN : 2 <= N <= 4294967296.
Hypothesis Hr : N * r == 1.
Hypothesis Hdq : Qabs (dq - r) <= eps.
Hypothesis HVs : Qabs (Vs - dq) <= u * dq.
Hypothesis HVq : Qabs (Vq - Vs * Vs) <= u * (Vs * Vs).

Lemma r_bounds : (1 # 4294967296) <= r /\ r <= 1 # 2.
Proof. destruct HN. split; nra. Qed.

Lemma dq_bounds : (1 # 8589934592) <= dq /\ dq <= 51 # 100.
Proof.
  pose proof r_bounds as [? ?]. unfold eps in *.
  apply Qabs_Qle_condition in Hdq. destruct Hdq. split; lra.
Qed.

Lemma Vs_bounds : (1 # 17179869184) <= Vs /\ Vs <= 52 # 100.
Proof.
  pose proof dq_bounds as [? ?]. unfold u in *.
  apply Qabs_Qle_condition in HVs. destruct HVs. split; nra.
Qed.

Lemma Vs2_bounds : (1 # 295147905179352825856) <= Vs * Vs /\ Vs * Vs <= 28 # 100.
Proof. pose proof Vs_bounds as [? ?]. split; nra. Qed.

Lemma Vq_bounds : (1 # 590295810358705651712) <= Vq /\ Vq <= 3 # 10.
Proof.
  pose proof Vs2_bounds as [? ?]. unfold u in *.
  apply Qabs_Qle_condition in HVq. destruct HVq. split; nra.
Qed.

(** [N * dq^2] against [1/N]. *)
Lemma Ndq2 : Qabs (N * (dq * dq) - r) <= 3 * eps.
Proof.
  pose proof r_bounds as [Hr1 Hr2]. destruct HN as [HN1 HN2]. unfold eps in *.
  apply Qabs_Qle_condition in Hdq. destruct Hdq as [H1 H2].
  set (t := dq - r) in *.
  assert (E : N * (dq * dq) - r == 2 * t + N * (t * t)).
  { unfold t. transitivity ((N * r) * r + 2 * (N * r) * (dq - r) + N * ((dq - r) * (dq - r)) - r).
    - ring.
    - rewrite Hr. ring. }
  rewrite E. apply Qabs_Qle_condition.
  assert (0 <= t * t) by nra.
  assert (t * t <= (1 # 2000000000000000000) * (1 # 2000000000000000000)) by nra.
  split; nra.
Qed.

Lemma Vq_dq : Qabs (Vq - dq * dq) <= (3001 # 1000) * u * (dq * dq).
Proof.
  pose proof dq_bounds as [? ?]. unfold u in *.
  apply Qabs_Qle_condition in HVs. destruct HVs as [H1 H2].
  apply Qabs_Qle_condition in HVq. destruct HVq as [H3 H4].
  assert (0 <= dq * dq) by nra.
  assert (Vs * Vs <= dq * dq * (1 + (2001 # 1000) * (1 # 9007199254740992))) by nra.
  assert (dq * dq * (1 - (2 # 1) * (1 # 9007199254740992)) <= Vs * Vs) by nra.
  apply Qabs_Qle_condition. split; nra.
Qed.

Lemma NVq : Qabs (N * Vq - r) <= (152 # 100) * u.
Proof.
  pose proof Ndq2 as H1. pose proof Vq_dq as H2. pose proof r_bounds as [Hr1 Hr2].
  destruct HN as [HN1 HN2]. unfold eps, u in *.
  apply Qabs_Qle_condition in H1. destruct H1 as [H1 H1'].
  apply Qabs_Qle_condition in H2. destruct H2 as [H2 H2'].
  set (P := N * (dq * dq)) in *.
  assert (HP : 0 <= P <= 501 # 1000) by (split; lra).
  assert (E : N * Vq - r == (P - r) + N * (Vq - dq * dq)) by (unfold P; ring).
  rewrite E.
  assert (N * (Vq - dq * dq) <= (3001 # 1000) * (1 # 9007199254740992) * P).
  { unfold P. nra. }
  assert (- ((3001 # 1000) * (1 # 9007199254740992) * P) <= N * (Vq - dq * dq)).
  { unfold P. nra. }
  apply Qabs_Qle_condition. split; nra.
Qed.

Variable Va : Q.
Hypothesis HVa : Qabs (Va - N * Vq) <= N * N * (u * Vq).

Lemma Va_r : Qabs (Va - r) <= (253 # 100) * u.
Proof.
  pose proof NVq as H1. pose proof r_bounds as [Hr1 Hr2]. destruct HN as [HN1 HN2]. unfold u in *.
  apply Qabs_Qle_condition in H1. destruct H1 as [H1 H1'].
  apply Qabs_Qle_condition in HVa. destruct HVa as [H2 H2'].
  set (Q1 := N * Vq) in *.
  assert (E : N * N * ((1 # 9007199254740992) * Vq) == (1 # 9007199254740992) * (N * Q1))
    by (unfold Q1; ring).
  rewrite E in H2, H2'.
  assert (N * Q1 <= 1 + (1 # 1000000)) by nra.
  assert (0 <= N * Q1) by nra.
  apply Qabs_Qle_condition. split; nra.
Qed.

Lemma Va_bounds : (1 # 8589934592) <= Va /\ Va <= 51 # 100.
Proof.
  pose proof Va_r as H1. pose proof r_bounds as [? ?]. unfold u in *.
  apply Qabs_Qle_condition in H1. destruct H1. split; lra.
Qed.

Variable Vi : Q.
Hypothesis HVi : Qabs (Vi - (1 - Va)) <= u * (1 - Va).

Lemma Vi_r : Qabs (Vi - (1 - r)) <= 1 # 2251799813685248.
Proof.
  pose proof Va_r as H1. pose proof Va_bounds as [? ?]. unfold u in *.
  apply Qabs_Qle_condition in H1. destruct H1.
  apply Qabs_Qle_condition in HVi. destruct HVi.
  apply Qabs_Qle_condition. split; nra.
Qed.

End Shares.

End ErrorBounds2.

Module SumFacts.
Local Open Scope Q_scope.
Import FloatValue FloatValueFacts FloatOpFacts FloatOpFacts2 ErrorBounds ErrorBounds2.

Lemma bpow_1023_big : 1099511627776 <= bpow 1023.
Proof.
  apply Qle_trans with (bpow 40); [|apply bpow_le; lia].
  unfold bpow. cbn. apply Qle_refl.
Qed.

Lemma inject_nat_S (k : nat) : inject_Z (Z.of_nat (S k)) == inject_Z (Z.of_nat k) + 1.
Proof. rewrite Nat2Z.inj_succ. unfold Z.succ. rewrite inject_Z_plus. reflexivity. Qed.

Lemma inject_nat_bounds (k : nat) (B : Z) :
  (1 <= k)%nat -> (Z.of_nat k <= B)%Z -> 1 <= inject_Z (Z.of_nat k) <= inject_Z B.
Proof.
  intros H1 H2. split.
  - change 1 with (inject_Z 1). rewrite <- Zle_Qle. lia.
  - rewrite <- Zle_Qle. exact H2.
Qed.

(** Adding [s * s] again and again: after [k] additions the sum is within
    [k^2 * u] (relative) of [k] times the square. *)
Lemma fold_acc (s : float) :
  pnormal (s * s)%float -> value (s * s)%float <= 3 # 10 ->
  forall (j k : nat) (a : float),
    (1 <= k)%nat -> (Z.of_nat (k + j) <= 4294967296)%Z ->
    pnormal a ->
    Qabs (value a - inject_Z (Z.of_nat k) * value (s * s)%float)
      <= inject_Z (Z.of_nat k) * inject_Z (Z.of_nat k) * (u * value (s * s)%float) ->
    let a' := fold_left (fun a b => (a + b * b)%float) (repeat s j) a in
    pnormal a' /\
    Qabs (value a' - inject_Z (Z.of_nat (k + j)) * value (s * s)%float)
      <= inject_Z (Z.of_nat (k + j)) * inject_Z (Z.of_nat (k + j)) * (u * value (s * s)%float).
Proof.
  intros Hq Hq3. pose proof (pnormal_pos _ Hq) as Hq0.
  set (Vq := value (s * s)%float) in *.
  induction j as [|j IH]; intros k a Hk Hkj Ha Hinv; cbv zeta.
  - rewrite Nat.add_0_r. cbn [repeat fold_left]. split; assumption.
  - cbn [repeat fold_left].
    destruct (inject_nat_bounds k 4294967296 Hk ltac:(lia)) as [HK1 HK2].
    set (K := inject_Z (Z.of_nat k)) in *.
    change (inject_Z 4294967296) with (4294967296 # 1) in HK2.
    assert (HKu : K * u <= 1) by (unfold u; nra).
    assert (Hsum : value a + Vq < bpow 1023).
    { apply Qlt_le_trans with 1099511627776; [|apply bpow_1023_big].
      apply Qabs_Qle_condition in Hinv. destruct Hinv as [_ Hup].
      assert (K * K * (u * Vq) <= K * Vq).
      { assert (E : K * K * (u * Vq) == (K * u) * (K * Vq)) by ring.
        rewrite E. assert (0 <= K * Vq) by nra. nra. }
      assert (K * Vq <= 4294967296 * (3 # 10)) by nra.
      lra. }
    destruct (add_pnormal a (s * s)%float Ha Hq Hsum) as [Ha' Herr].
    fold Vq in Herr.
    pose proof (acc_step K (u * Vq) Vq (value a) (value (a + s * s)%float)
                  HK1 HKu (Qlt_le_weak _ _ Hq0) (Qeq_refl _) Hinv Herr) as Hstep.
    replace (k + S j)%nat with (S k + j)%nat by lia.
    apply IH; [lia|lia|exact Ha'|].
    rewrite inject_nat_S. fold K. exact Hstep.
Qed.

End SumFacts.

Module IndexFacts.
Local Open Scope Q_scope.
Import FloatValue FloatValueFacts FloatOpFacts FloatOpFacts2 ErrorBounds ErrorBounds2 SumFacts.

Lemma bpow_m68 : bpow (-68) == 1 # 295147905179352825856.
Proof. reflexivity. Qed.

Lemma bpow_m33 : bpow (-33) == 1 # 8589934592.
Proof. reflexivity. Qed.

Lemma bpow_0 : bpow 0 == 1.
Proof. reflexivity. Qed.

(** The index of [n >= 2] equal shares [s], each within [u] (relative) of
    a decimal [dq] that is within [eps] of [1/n]. *)
Lemma index_of_equal_shares (s : float) (n : nat) (dq : Q) :
  (2 <= n)%nat -> (Z.of_nat n <= 4294967296)%Z ->
  Qabs (dq - 1 / inject_Z (Z.of_nat n)) <= eps ->
  pnormal s -> Qabs (value s - dq) <= u * dq ->
  Qabs (value (1 - fold_left (fun a b => (a + b * b)%float) (repeat s n) 0)%float
        - (1 - 1 / inject_Z (Z.of_nat n))) <= 1 # 2251799813685248.
Proof.
  intros Hn2 Hn32 Hdq Hs HVs.
  set (N := inject_Z (Z.of_nat n)) in *.
  assert (HN : 2 <= N <= 4294967296).
  { unfold N. split.
    - change 2 with (inject_Z 2). rewrite <- Zle_Qle. lia.
    - change 4294967296 with (inject_Z 4294967296). rewrite <- Zle_Qle. exact Hn32. }
  assert (Hr : N * (1 / N) == 1).
  { field. intros E. destruct HN as [HN1 _]. lra. }
  set (r := 1 / N) in *.
  pose proof (Vs2_bounds N r dq (value s) HN Hr Hdq HVs) as [Hs1 Hs2].
  assert (Hlo : bpow (-1000) <= value s * value s).
  { apply Qle_trans with (bpow (-68)); [apply bpow_le; lia|]. rewrite bpow_m68. exact Hs1. }
  assert (Hhi : value s * value s < bpow 1000).
  { apply Qlt_le_trans with (bpow 0); [rewrite bpow_0; lra|apply bpow_le; lia]. }
  destruct (mul_pnormal s s Hs Hs Hlo Hhi) as [Hq HVq].
  pose proof (Vq_bounds N r dq (value s) (value (s * s)%float) HN Hr Hdq HVs HVq) as [Hq1 Hq2].
  destruct n as [|n']; [lia|].
  cbn [repeat fold_left]. rewrite (add_zero_l _ Hq).
  assert (Hinv : Qabs (value (s * s)%float - inject_Z (Z.of_nat 1) * value (s * s)%float)
                 <= inject_Z (Z.of_nat 1) * inject_Z (Z.of_nat 1) * (u * value (s * s)%float)).
  { change (inject_Z (Z.of_nat 1)) with 1.
    pose proof (pnormal_pos _ Hq) as Hq0. revert Hq0.
    generalize (value (s * s)%float). intros Vq Hq0.
    apply Qabs_Qle_condition. unfold u. split; nra. }
  destruct (fold_acc s Hq Hq2 n' 1%nat (s * s)%float (le_n 1) ltac:(lia) Hq Hinv) as [Ha HVa].
  change (1 + n')%nat with (S n') in HVa. fold N in HVa.
  set (acc := fold_left (fun a b => (a + b * b)%float) (repeat s n') (s * s)%float) in *.
  pose proof (Va_bounds N r dq (value s) (value (s * s)%float) HN Hr Hdq HVs HVq
                (value acc) HVa) as [Ha1 Ha2].
  destruct one_pnormal as [H1 V1].
  assert (Hlo' : bpow (-900) <= value acc).
  { apply Qle_trans with (bpow (-33)); [apply bpow_le; lia|]. rewrite bpow_m33. exact Ha1. }
  assert (Hlt : value acc < value 1) by (rewrite V1; lra).
  assert (Hhi' : value 1 < bpow 1000).
  { rewrite V1. apply Qlt_le_trans with (bpow 1); [reflexivity|apply bpow_le; lia]. }
  destruct (sub_pnormal 1 acc H1 Ha Hlo' Hlt Hhi') as [_ HVi].
  rewrite V1 in HVi.
  exact (Vi_r N r dq (value s) (value (s * s)%float) HN Hr Hdq HVs HVq (value acc) HVa
           (value (1 - acc)%float) HVi).
Qed.

End IndexFacts.

Module ShareFacts.
Import FloatValue FloatValueFacts FloatOpFacts FloatOpFacts2 NumberFacts2
       ErrorBounds ErrorBounds2 SumFacts IndexFacts.
Import Num Metrics.

Lemma pow10_ge (DP : nat) : (18 <= DP)%nat -> 1000000000000000000 <= Big.pow10 DP.
Proof.
  intros H. unfold Big.pow10. change 1000000000000000000 with (10 ^ 18).
  apply Z.pow_le_mono_r; lia.
Qed.

(** The decimal share of one bin among [n >= 2] equal ones. *)
Lemma share_bounds (P n : Z) :
  1000000000000000000 <= P -> 2 <= n <= 4294967296 ->
  let c := Big.div_half_up P n in
  0 < c /\ c <= P /\ P <= c * 2 ^ 1000 /\ 2 * c * n <= 2 * P + n /\ 2 * P <= 2 * c * n + n.
Proof.
  intros HP Hn c.
  pose proof (BigFacts.div_half_up_bound P n ltac:(lia)) as H. fold c in H.
  rewrite (Z.abs_eq n) in H by lia.
  apply Z.abs_le in H. destruct H as [H1 H2].
  assert (Hc : 0 < c) by nia.
  assert (Hc' : c <= P) by nia.
  repeat split; try lia.
  assert (P <= c * 8589934592) by nia.
  assert (8589934592 <= 2 ^ 1000) by (vm_compute; discriminate).
  nia.
Qed.

Lemma share_number (DP n : nat) :
  (18 <= DP)%nat -> (2 <= n)%nat -> Z.of_nat n <= 4294967296 ->
  let s := Number (Big.mk (Big.div_half_up (Big.pow10 DP) (Z.of_nat n)) DP) in
  let dq := (inject_Z (Big.div_half_up (Big.pow10 DP) (Z.of_nat n))
             / inject_Z (Big.pow10 DP))%Q in
  pnormal s /\
  (Qabs (value s - dq) <= u * dq)%Q /\
  (Qabs (dq - 1 / inject_Z (Z.of_nat n)) <= eps)%Q.
Proof.
  intros HDP Hn2 Hn32 s dq.
  pose proof (pow10_ge DP HDP) as HP.
  destruct (share_bounds (Big.pow10 DP) (Z.of_nat n) HP ltac:(lia))
    as (Hc & HcP & HPc & Hup & Hlo).
  set (c := Big.div_half_up (Big.pow10 DP) (Z.of_nat n)) in *.
  set (P := Big.pow10 DP) in *.
  assert (Es : s = of_ratio c P).
  { unfold s, Number. cbn [Big.coef Big.scale]. fold c P.
    rewrite Z.abs_eq by lia.
    destruct (c <? 0) eqn:E; [apply Z.ltb_lt in E; lia|reflexivity]. }
  destruct (of_ratio_pnormal c P Hc HcP HPc) as [Hs HVs].
  rewrite <- Es in Hs, HVs.
  split; [exact Hs|]. split; [exact HVs|].
  rewrite Zle_Qle in Hup, Hlo, HP.
  assert (HN : (2 <= inject_Z (Z.of_nat n))%Q)
    by (change 2%Q with (inject_Z 2); rewrite <- Zle_Qle; lia).
  rewrite ?inject_Z_plus, ?inject_Z_mult in Hup, Hlo.
  change (inject_Z 2) with 2%Q in *.
  change (inject_Z 1000000000000000000) with (1000000000000000000 # 1)%Q in HP.
  unfold dq. 
  set (cq := inject_Z c) in *. set (Pq := inject_Z P) in *.
  set (N := inject_Z (Z.of_nat n)) in *.
  assert (Ed : (cq / Pq * Pq == cq)%Q) by (field; lra).
  assert (Er : (N * (1 / N) == 1)%Q) by (field; lra).
  set (d := (cq / Pq)%Q) in *. set (r := (1 / N)%Q) in *.
  clearbody d r cq Pq N. clear - Hup Hlo HP HN Ed Er.
  unfold eps.
  assert (E1 : ((d - r) * Pq * N == cq * N - Pq)%Q).
  { transitivity ((d * Pq) * N - Pq * (N * r))%Q; [ring|]. rewrite Ed, Er. ring. }
  set (t := (d - r)%Q) in *. clearbody t.
  assert (Ht : (- (1 # 2) <= t * Pq <= 1 # 2)%Q).
  { assert (E2 : ((t * Pq) * N == cq * N - Pq)%Q) by (rewrite <- E1; ring).
    set (w := (t * Pq)%Q) in *. clearbody w. split; nra. }
  apply Qabs_Qle_condition. split; nra.
Qed.

End ShareFacts.

(* ===================================================================== *)
(** * MetricsService: the metric formulas *)

Module MetricsFacts.

Import Num Metrics.

(** C3.  [calculateAPR] returns 0 for a zero liquidity; otherwise it divides
    the fees by the liquidity in decimals ([dailyRate], the exact quotient
    rounded at the [DP]-th decimal), multiplies by 365 and by 100 exactly,
    and returns that decimal as a number.  It is 365 at fees 100 and
    liquidity 10000, and 0 for zero fees whatever the liquidity. *)
Theorem calculateAPR_spec (DP : nat) (fees24h totalLiquidity : Big.t) :
  (Big.eq totalLiquidity Big.zero = true ->
     calculateAPR DP fees24h totalLiquidity = 0%float) /\
  (Big.eq totalLiquidity Big.zero = false ->
     exists dailyRate : Big.t,
       Big.div DP fees24h totalLiquidity = Ok dailyRate /\
       calculateAPR DP fees24h totalLiquidity
         = Number (Big.mul (Big.mul dailyRate (Big.of_Z 365)) (Big.of_Z 100)) /\
       (Big.toQ (Big.mul (Big.mul dailyRate (Big.of_Z 365)) (Big.of_Z 100))
          == Big.toQ dailyRate * 365 * 100)%Q /\
       (Qabs (Big.toQ dailyRate - Big.toQ fees24h / Big.toQ totalLiquidity)
          <= 1 # Z.to_pos (2 * Big.pow10 DP))%Q) /\
  (Big.eq fees24h Big.zero = true ->
     calculateAPR DP fees24h totalLiquidity = 0%float) /\
  calculateAPR 20 (Big.of_Z 100) (Big.of_Z 10000) = 365%float /\
  calculateAPR 18 (Big.of_Z 100) (Big.of_Z 10000) = 365%float.
Proof.
  split; [|split; [|split; [|split]]].
  - intros Hz. unfold calculateAPR. rewrite Hz. reflexivity.
  - intros Hnz. unfold calculateAPR. rewrite Hnz.
    pose proof (proj1 (BigFacts.eq_zero_false_iff _) Hnz) as Hc.
    rewrite (BigFacts.div_ok DP fees24h totalLiquidity Hc).
    eexists. split; [reflexivity|]. split; [reflexivity|]. split.
    + rewrite !BigFacts.toQ_mul. reflexivity.
    + apply (BigFacts.div_accurate DP fees24h totalLiquidity).
      apply BigFacts.div_ok. exact Hc.
  - intros Hf. apply BigFacts.eq_zero_iff in Hf. unfold calculateAPR.
    destruct (Big.eq totalLiquidity Big.zero) eqn:Hl; [reflexivity|].
    apply BigFacts.eq_zero_false_iff in Hl.
    rewrite (BigFacts.div_zero_l DP _ _ Hf Hl). reflexivity.
  - vm_compute. reflexivity.
  - vm_compute. reflexivity.
Qed.

(** The APR of one unit of fees over three of liquidity, as [calculateAPR_spec]
    gives it. *)
Lemma calculateAPR_spec_witness :
  Big.eq (Big.of_Z 3) Big.zero = false /\
  exists dailyRate : Big.t,
    Big.div 20 (Big.of_Z 1) (Big.of_Z 3) = Ok dailyRate /\
    calculateAPR 20 (Big.of_Z 1) (Big.of_Z 3)
      = Number (Big.mul (Big.mul dailyRate (Big.of_Z 365)) (Big.of_Z 100)).
Proof.
  split; [reflexivity|].
  destruct (calculateAPR_spec 20 (Big.of_Z 1) (Big.of_Z 3)) as (_ & H & _).
  destruct (H eq_refl) as (r & H1 & H2 & _).
  exists r. split; assumption.
Defined.

(** C4.  At a daily rate below half an ulp of 1 the sum [1 + rate] is 1 in
    binary64: with one unit of fees over 10^17 of liquidity the compounded
    APR is 0 while the linear APR is positive, for every [Math.pow] that
    returns 1 for the power 365 of 1. *)
Theorem calculateCompoundedAPR_below_linear (Math_pow : float -> float -> float) :
  Math_pow 1%float 365%float = 1%float ->
  calculateCompoundedAPR 20 Math_pow (Big.of_Z 1) (Big.of_Z (10 ^ 17)) 365 = 0%float /\
  calculateAPR 20 (Big.of_Z 1) (Big.of_Z (10 ^ 17)) = 3.65e-13%float /\
  PrimFloat.ltb (calculateCompoundedAPR 20 Math_pow (Big.of_Z 1) (Big.of_Z (10 ^ 17)) 365)
                (calculateAPR 20 (Big.of_Z 1) (Big.of_Z (10 ^ 17))) = true /\
  PrimFloat.ltb (calculateCompoundedAPR 18 Math_pow (Big.of_Z 1) (Big.of_Z (10 ^ 17)) 365)
                (calculateAPR 18 (Big.of_Z 1) (Big.of_Z (10 ^ 17))) = true.
Proof.
  intros Hpow.
  assert (E20 : calculateCompoundedAPR 20 Math_pow (Big.of_Z 1) (Big.of_Z (10 ^ 17)) 365
                = 0%float).
  { vm_compute. vm_compute in Hpow. rewrite Hpow. vm_compute. reflexivity. }
  assert (E18 : calculateCompoundedAPR 18 Math_pow (Big.of_Z 1) (Big.of_Z (10 ^ 17)) 365
                = 0%float).
  { vm_compute. vm_compute in Hpow. rewrite Hpow. vm_compute. reflexivity. }
  rewrite E20, E18.
  repeat split; vm_compute; reflexivity.
Qed.

(** [Math_pow_ref] is such a [Math.pow]. *)
Lemma calculateCompoundedAPR_below_linear_witness :
  Math_pow_ref 1%float 365%float = 1%float /\
  PrimFloat.ltb
    (calculateCompoundedAPR 20 Math_pow_ref (Big.of_Z 1) (Big.of_Z (10 ^ 17)) 365)
    (calculateAPR 20 (Big.of_Z 1) (Big.of_Z (10 ^ 17))) = true.
Proof.
  assert (H : Math_pow_ref 1%float 365%float = 1%float) by (vm_compute; reflexivity).
  split; [exact H|].
  exact (proj1 (proj2 (proj2 (calculateCompoundedAPR_below_linear Math_pow_ref H)))).
Defined.

(** The tested instance of the same comparison holds. *)
Lemma calculateCompoundedAPR_tested_instance :
  PrimFloat.ltb (calculateAPR 20 (Big.of_Z 100) (Big.of_Z 10000))
                (calculateCompoundedAPR 20 Math_pow_ref (Big.of_Z 100) (Big.of_Z 10000) 365)
    = true.
Proof. vm_compute. reflexivity. Qed.

(** [calculateImpermanentLoss] is 0 when either ratio is 0. *)
Lemma calculateImpermanentLoss_zero (DP : nat) (initialPriceRatio currentPriceRatio : Big.t) :
  Big.eq initialPriceRatio Big.zero || Big.eq currentPriceRatio Big.zero = true ->
  calculateImpermanentLoss DP initialPriceRatio currentPriceRatio = 0%float.
Proof. intros H. unfold calculateImpermanentLoss. rewrite H. reflexivity. Qed.

(** [calculateImpermanentLoss] is 0 when the two ratios are the same. *)
Lemma calculateImpermanentLoss_same (DP : nat) (r : Big.t) :
  calculateImpermanentLoss DP r r = 0%float.
Proof.
  unfold calculateImpermanentLoss.
  destruct (Big.eq r Big.zero) eqn:Hz; [reflexivity|]. cbn [orb].
  apply BigFacts.eq_zero_false_iff in Hz.
  rewrite (BigFacts.div_self DP r Hz). cbn [rbind].
  rewrite NumFacts.Number_one.
  replace (toBig (PrimFloat.sqrt 1)) with (Ok (Big.mk 1 0)) by (vm_compute; reflexivity).
  cbn [rbind].
  pose proof (BigFacts.pow10_pos DP) as HDP.
  rewrite BigFacts.div_ok
    by (unfold Big.add, Big.of_Z; cbn [Big.coef Big.scale]; rewrite BigFacts.pow10_0; lia).
  cbn [rbind]. apply NumFacts.Number_zero.
  unfold Big.minus, Big.mul, Big.add, Big.of_Z; cbn [Big.coef Big.scale].
  cbn [Nat.add]. rewrite !BigFacts.pow10_0.
  replace (2 * 1 * Big.pow10 DP * Big.pow10 DP) with (2 * Big.pow10 DP * Big.pow10 DP) by ring.
  replace ((1 * Big.pow10 DP + Big.pow10 DP * 1) * 1) with (2 * Big.pow10 DP) by ring.
  rewrite BigFacts.div_half_up_exact by lia. ring.
Qed.

(** C5.  The square root is taken in binary64 and read back as a decimal: at
    the price ratio 0.9999999991459265 (from 1) the computed impermanent
    loss is 5e-17, a positive number; at 1.00000001 it is 0.  The tested
    instance, ratio 1.5, is negative. *)
Theorem calculateImpermanentLoss_positive :
  calculateImpermanentLoss 20 (Big.of_Z 1) (Big.mk 9999999991459265 16) = 5e-17%float /\
  PrimFloat.ltb 0 (calculateImpermanentLoss 20 (Big.of_Z 1) (Big.mk 9999999991459265 16)) = true /\
  PrimFloat.ltb 0 (calculateImpermanentLoss 18 (Big.of_Z 1) (Big.mk 9999999991459265 16)) = true /\
  calculateImpermanentLoss 20 (Big.of_Z 1) (Big.mk 100000001 8) = 0%float /\
  PrimFloat.ltb (calculateImpermanentLoss 20 (Big.of_Z 1) (Big.mk 15 1)) 0 = true.
Proof. repeat split; vm_compute; reflexivity. Qed.

(** A finite power multiplies the base price; a power that is not finite has
    no decimal reading, [new Big] throws, and the [catch] returns 0. *)
Lemma calculateBinPrice_finite (Math_pow : float -> float -> float)
    (binId binStep : float) (basePrice m : Big.t) :
  toBig (Math_pow (1 + binStep / 10000)%float binId) = Ok m ->
  calculateBinPrice Math_pow binId binStep basePrice = Big.mul basePrice m.
Proof. intros H. unfold calculateBinPrice. rewrite H. reflexivity. Qed.

Lemma calculateBinPrice_not_finite (Math_pow : float -> float -> float)
    (binId binStep : float) (basePrice : Big.t) (e : exn) :
  toBig (Math_pow (1 + binStep / 10000)%float binId) = Throw e ->
  calculateBinPrice Math_pow binId binStep basePrice = Big.zero.
Proof. intros H. unfold calculateBinPrice. rewrite H. reflexivity. Qed.

(** C6 against the code.  The power is a binary64 number.  Where it
    overflows ([Math.pow] returns [Infinity]) the decimal constructor throws,
    the [catch] logs the failure and the price returned is 0: for a positive
    base price the price of such a bin lies below the price of bin 0, which
    is the base price itself, although the bin lies above bin 0.  Nothing is
    asked of [Math.pow] here beyond its value 1 at the exponent 0 and its
    overflow at the bin in question. *)
Theorem calculateBinPrice_overflow (Math_pow : float -> float -> float)
    (binId binStep : float) (basePrice : Big.t) :
  0 < Big.coef basePrice ->
  PrimFloat.ltb 0 binId = true ->
  Math_pow (1 + binStep / 10000)%float 0%float = 1%float ->
  Math_pow (1 + binStep / 10000)%float binId = infinity ->
  calculateBinPrice Math_pow binId binStep basePrice = Big.zero /\
  Big.eq (calculateBinPrice Math_pow 0 binStep basePrice) basePrice = true /\
  Big.lt (calculateBinPrice Math_pow binId binStep basePrice)
         (calculateBinPrice Math_pow 0 binStep basePrice) = true.
Proof.
  intros Hb _ H0 Hinf.
  assert (Ez : calculateBinPrice Math_pow binId binStep basePrice = Big.zero).
  { apply (calculateBinPrice_not_finite _ _ _ _ Big.INVALID_NUMBER).
    rewrite Hinf. reflexivity. }
  assert (E0 : calculateBinPrice Math_pow 0 binStep basePrice
               = Big.mul basePrice (Big.mk 1 0)).
  { apply calculateBinPrice_finite. rewrite H0. vm_compute. reflexivity. }
  rewrite Ez, E0. split; [reflexivity|].
  pose proof (BigFacts.pow10_pos (Big.scale basePrice)) as Hs.
  unfold Big.eq, Big.lt, Big.cmp, Big.mul, Big.zero, Big.of_Z; cbn [Big.coef Big.scale].
  rewrite Nat.add_0_r, Z.mul_1_r, Z.compare_refl, BigFacts.pow10_0.
  split; [reflexivity|].
  destruct (Z.compare_spec (0 * Big.pow10 (Big.scale basePrice)) (Big.coef basePrice * 1));
    [lia|reflexivity|lia].
Qed.

(** Bin 1000000 of a pool with a bin step of 25 basis points and the base
    price 1.5: 1.0025 to the power 1000000 is above every binary64 number,
    the price returned is 0, and the price of bin 0 is 1.5. *)
Lemma calculateBinPrice_overflow_witness :
  0 < Big.coef (Big.mk 15 1) /\
  PrimFloat.ltb 0 1000000 = true /\
  Math_pow_ref (1 + 25 / 10000)%float 1000000%float = infinity /\
  calculateBinPrice Math_pow_ref 1000000 25 (Big.mk 15 1) = Big.zero /\
  calculateBinPrice Math_pow_ref 0 25 (Big.mk 15 1) = Big.mk 15 1 /\
  Big.lt (calculateBinPrice Math_pow_ref 1000000 25 (Big.mk 15 1))
         (calculateBinPrice Math_pow_ref 0 25 (Big.mk 15 1)) = true.
Proof.
  assert (Hb : 0 < Big.coef (Big.mk 15 1)) by reflexivity.
  assert (Hid : PrimFloat.ltb 0 1000000 = true) by reflexivity.
  assert (H0 : Math_pow_ref (1 + 25 / 10000)%float 0%float = 1%float)
    by (vm_compute; reflexivity).
  assert (Hinf : Math_pow_ref (1 + 25 / 10000)%float 1000000%float = infinity)
    by (vm_compute; reflexivity).
  pose proof (calculateBinPrice_overflow Math_pow_ref 1000000 25 (Big.mk 15 1)
                Hb Hid H0 Hinf) as (Hz & _ & Hlt).
  split; [exact Hb|]. split; [exact Hid|]. split; [exact Hinf|].
  split; [exact Hz|]. split; [vm_compute; reflexivity|exact Hlt].
Defined.

Lemma total_of_equal_bins (binData : list bin) (T : Big.t) :
  (forall b, In b binData -> Big.eq (Big.add (liquidityX b) (liquidityY b)) T = true) ->
  (Big.toQ (Big.add (totalX binData) (totalY binData))
   == inject_Z (Z.of_nat (length binData)) * Big.toQ T)%Q.
Proof.
  intros H. rewrite BigFacts.toQ_add. unfold totalX, totalY. rewrite !BigFacts.toQ_fold_add.
  change (Big.toQ Big.zero) with (0 # 1)%Q.
  rewrite <- (BigFacts.sumQ_const (fun b => Big.add (liquidityX b) (liquidityY b)) binData T).
  - rewrite <- BigFacts.sumQ_plus. ring.
  - intros b Hb. apply BigFacts.eq_true_iff. apply H. exact Hb.
Qed.

(** C10.  For a non-empty bin list whose liquidity amounts are all zero the
    first share divides by the zero total: the [try] block throws big.js's
    division by zero, the [catch] returns (0, 0), the result for an empty
    bin set. *)
Theorem getLiquidityDistribution_zero_total (DP : nat) (binData : list bin) :
  binData <> nil ->
  (forall b, In b binData ->
     Big.eq (liquidityX b) Big.zero = true /\ Big.eq (liquidityY b) Big.zero = true) ->
  getLiquidityDistribution_body DP binData = Throw Big.DIV_BY_ZERO /\
  getLiquidityDistribution DP binData = mkDistribution 0 0 /\
  getLiquidityDistribution DP binData = getLiquidityDistribution DP nil.
Proof.
  intros Hne Hz.
  assert (Hbody : getLiquidityDistribution_body DP binData = Throw Big.DIV_BY_ZERO).
  { destruct binData as [|b l]; [contradiction|].
    unfold getLiquidityDistribution_body. cbn [mapM].
    rewrite BigFacts.div_by_zero; [reflexivity|].
    unfold Big.add at 1; cbn [Big.coef].
    unfold totalX, totalY.
    rewrite !BigFacts.fold_add_coef_zero; try reflexivity.
    - intros b' Hb'. apply BigFacts.eq_zero_iff. apply (Hz b' Hb').
    - intros b' Hb'. apply BigFacts.eq_zero_iff. apply (Hz b' Hb'). }
  split; [exact Hbody|].
  unfold getLiquidityDistribution. rewrite Hbody. split; reflexivity.
Qed.

(** Two bins without liquidity. *)
Lemma getLiquidityDistribution_zero_total_witness :
  (mkBin Big.zero Big.zero :: mkBin (Big.mk 0 6) Big.zero :: nil) <> nil /\
  getLiquidityDistribution 20 (mkBin Big.zero Big.zero :: mkBin (Big.mk 0 6) Big.zero :: nil)
    = mkDistribution 0 0.
Proof.
  assert (Hne : (mkBin Big.zero Big.zero :: mkBin (Big.mk 0 6) Big.zero :: nil) <> nil)
    by discriminate.
  split; [exact Hne|].
  refine (proj1 (proj2 (getLiquidityDistribution_zero_total 20 _ Hne _))).
  intros b [<-|[<-|[]]]; split; reflexivity.
Defined.

(** With [n] bins of equal total liquidity every share is the same decimal,
    [1 / n] rounded at the [DP]-th decimal. *)
Lemma equal_bins_shares (DP : nat) (binData : list bin) (T : Big.t) :
  binData <> nil -> 0 < Big.coef T ->
  (forall b, In b binData -> Big.eq (Big.add (liquidityX b) (liquidityY b)) T = true) ->
  mapM (fun b =>
          let binTotal := Big.add (liquidityX b) (liquidityY b) in
          let* share := Big.div DP binTotal (Big.add (totalX binData) (totalY binData)) in
          Ok (Number share)) binData
  = Ok (repeat (Number (Big.mk (Big.div_half_up (Big.pow10 DP) (Z.of_nat (length binData))) DP))
               (length binData)).
Proof.
  intros Hne HT H.
  apply ResultFacts.mapM_const. intros b Hb. cbv zeta.
  assert (Hlen : 0 < Z.of_nat (length binData)).
  { destruct binData; [contradiction|]. cbn [length]. lia. }
  assert (Hb0 : (Big.toQ (Big.add (liquidityX b) (liquidityY b)) == Big.toQ T)%Q).
  { apply BigFacts.eq_true_iff. apply H. exact Hb. }
  rewrite (BigFacts.div_by_multiple DP _ _ (Z.of_nat (length binData))).
  - reflexivity.
  - exact Hlen.
  - apply BigFacts.toQ_eq_iff in Hb0.
    pose proof (BigFacts.pow10_pos (Big.scale T)).
    pose proof (BigFacts.pow10_pos (Big.scale (Big.add (liquidityX b) (liquidityY b)))).
    nia.
  - rewrite (total_of_equal_bins binData T H), Hb0. reflexivity.
Qed.

Lemma liquidityRatio_zero_totalX (DP : nat) (binData : list bin) :
  Big.eq (totalX binData) Big.zero = true ->
  liquidityRatio (getLiquidityDistribution DP binData) = 0%float.
Proof.
  intros Hx. unfold getLiquidityDistribution, getLiquidityDistribution_body.
  destruct binData as [|b l]; [reflexivity|].
  destruct (mapM _ (b :: l)) as [shares|e]; [|reflexivity].
  cbn [rbind]. rewrite Hx. reflexivity.
Qed.

Lemma liquidityRatio_quotient (DP : nat) (binData : list bin) :
  binData <> nil ->
  Big.eq (totalX binData) Big.zero = false ->
  Big.eq (Big.add (totalX binData) (totalY binData)) Big.zero = false ->
  exists q : Big.t,
    Big.div DP (totalY binData) (totalX binData) = Ok q /\
    liquidityRatio (getLiquidityDistribution DP binData) = Number q /\
    (Qabs (Big.toQ q - Big.toQ (totalY binData) / Big.toQ (totalX binData))
       <= 1 # Z.to_pos (2 * Big.pow10 DP))%Q.
Proof.
  intros Hne Hx Ht.
  apply BigFacts.eq_zero_false_iff in Hx. apply BigFacts.eq_zero_false_iff in Ht.
  pose proof (BigFacts.div_ok DP (totalY binData) (totalX binData) Hx) as Hq.
  eexists. split; [exact Hq|]. split.
  - unfold getLiquidityDistribution, getLiquidityDistribution_body.
    destruct binData as [|b l]; [contradiction|].
    match goal with
    | |- context [mapM ?f ?bins] => destruct (ResultFacts.mapM_ok f bins) as [shares Hs]
    end.
    { intros x _. rewrite BigFacts.div_ok by exact Ht. eexists. reflexivity. }
    rewrite Hs. cbn [rbind].
    apply BigFacts.eq_zero_false_iff in Hx. rewrite Hx, Hq. reflexivity.
  - apply (BigFacts.div_accurate DP _ _ _ Hq).
Qed.

Lemma equal_bins_index (DP : nat) (binData : list bin) (T : Big.t) :
  binData <> nil -> 0 < Big.coef T ->
  (forall b, In b binData -> Big.eq (Big.add (liquidityX b) (liquidityY b)) T = true) ->
  concentrationIndex (getLiquidityDistribution DP binData)
  = (1 - fold_left (fun a b => a + b * b)
         (repeat (Number (Big.mk (Big.div_half_up (Big.pow10 DP)
                                    (Z.of_nat (length binData))) DP))
                 (length binData)) 0)%float.
Proof.
  intros Hne HT H.
  unfold getLiquidityDistribution, getLiquidityDistribution_body.
  pose proof (equal_bins_shares DP binData T Hne HT H) as Hs.
  destruct binData as [|b l]; [contradiction|].
  cbv zeta in Hs. rewrite Hs. cbn [rbind].
  destruct (Big.eq (totalX (b :: l)) Big.zero) eqn:Hx; [reflexivity|].
  apply BigFacts.eq_zero_false_iff in Hx.
  rewrite (BigFacts.div_ok DP _ _ Hx). reflexivity.
Qed.

(** For [n] equal bins, up to 2^32 of them, and decimals kept to 18 places
    or more, the index is within 2^-51 of [1 - 1/n]. *)
Lemma equal_bins_index_bound (DP : nat) (binData : list bin) (T : Big.t) :
  (18 <= DP)%nat ->
  binData <> nil -> 0 < Big.coef T ->
  (forall b, In b binData -> Big.eq (Big.add (liquidityX b) (liquidityY b)) T = true) ->
  Z.of_nat (length binData) <= 4294967296 ->
  (Qabs (FloatValue.value (concentrationIndex (getLiquidityDistribution DP binData))
         - (1 - 1 / inject_Z (Z.of_nat (length binData))))
   <= 1 # 2251799813685248)%Q.
Proof.
  intros HDP Hne HT H Hlen.
  rewrite (equal_bins_index DP binData T Hne HT H).
  destruct (length binData) as [|[|n]] eqn:E.
  - destruct binData; [contradiction|discriminate].
  - change (Z.of_nat 1) with 1.
    assert (Hc : Big.div_half_up (Big.pow10 DP) 1 = Big.pow10 DP).
    { rewrite <- (Z.mul_1_l (Big.pow10 DP)) at 1.
      apply BigFacts.div_half_up_exact; [lia|].
      pose proof (BigFacts.pow10_pos DP); lia. }
    rewrite Hc, NumFacts.Number_one.
    apply Qle_bool_imp_le. vm_compute. reflexivity.
  - destruct (ShareFacts.share_number DP (S (S n)) HDP ltac:(lia) Hlen) as (Hs & HVs & Hdq).
    exact (IndexFacts.index_of_equal_shares _ (S (S n)) _ ltac:(lia) Hlen Hdq Hs HVs).
Qed.

(** For up to 1000 equal bins, at 20 or 18 decimals, the index is the number
    [1 - 1/n] or one of its two neighbours. *)
Lemma equal_bins_index_neighbours (DP : nat) (binData : list bin) (T : Big.t) :
  DP = 20%nat \/ DP = 18%nat ->
  binData <> nil -> 0 < Big.coef T ->
  (forall b, In b binData -> Big.eq (Big.add (liquidityX b) (liquidityY b)) T = true) ->
  (length binData <= 1000)%nat ->
  let x := concentrationIndex (getLiquidityDistribution DP binData) in
  let y := (1 - 1 / Num.of_Z (Z.of_nat (length binData)))%float in
  x = y \/ x = next_down y \/ x = next_up y.
Proof.
  intros HDP Hne HT H Hlen x y. subst x.
  rewrite (equal_bins_index DP binData T Hne HT H). subst y.
  assert (Hn : In (length binData) (seq 1 1000)).
  { apply in_seq. destruct binData; [contradiction|]. cbn [length]. cbn [length] in Hlen. lia. }
  revert Hn. generalize (length binData). intros n Hn.
  set (chk := fun (DP n : nat) =>
    let x := (1 - fold_left (fun a b => a + b * b)
                (repeat (Number (Big.mk (Big.div_half_up (Big.pow10 DP) (Z.of_nat n)) DP)) n)
                0)%float in
    let y := (1 - 1 / Num.of_Z (Z.of_nat n))%float in
    PrimFloat.Leibniz.eqb x y || PrimFloat.Leibniz.eqb x (next_down y)
    || PrimFloat.Leibniz.eqb x (next_up y)).
  assert (Hall : forallb (chk DP) (seq 1 1000) = true)
    by (destruct HDP as [-> | ->]; vm_compute; reflexivity).
  rewrite forallb_forall in Hall. specialize (Hall n Hn). unfold chk in Hall. cbv zeta in Hall.
  apply orb_true_iff in Hall. destruct Hall as [Hall|Hall].
  - apply orb_true_iff in Hall. destruct Hall as [Hall|Hall].
    + left. apply FloatAxioms.Leibniz.eqb_spec. exact Hall.
    + right; left. apply FloatAxioms.Leibniz.eqb_spec. exact Hall.
  - right; right. apply FloatAxioms.Leibniz.eqb_spec. exact Hall.
Qed.

(** C7 as the code has it.  An empty bin set gives (0, 0).  The ratio is 0
    when total-X is 0, and otherwise (the total liquidity not being 0) the
    number read from the decimal quotient total-Y / total-X.  For [n] bins of
    equal positive total liquidity every share is the number nearest to
    [1 / n] rounded at the [DP]-th decimal, and the index is 1 minus the sum
    of their squares accumulated in binary64.  With 18 decimals or more and
    up to 2^32 bins that number is within 2^-51 of the exact [1 - 1/n]; up
    to 1000 bins, at 20 or 18 decimals, it is the number [1 - 1/n] or one of
    its two neighbours; it is the number [1 - 1/n] itself for 1, 2 and 4
    bins, and 0.7999999999999999, one unit in the last place below, for 5. *)
Theorem getLiquidityDistribution_spec (DP : nat) :
  getLiquidityDistribution DP nil = mkDistribution 0 0 /\
  (forall binData,
     Big.eq (totalX binData) Big.zero = true ->
     liquidityRatio (getLiquidityDistribution DP binData) = 0%float) /\
  (forall binData,
     binData <> nil ->
     Big.eq (totalX binData) Big.zero = false ->
     Big.eq (Big.add (totalX binData) (totalY binData)) Big.zero = false ->
     exists q : Big.t,
       Big.div DP (totalY binData) (totalX binData) = Ok q /\
       liquidityRatio (getLiquidityDistribution DP binData) = Number q /\
       (Qabs (Big.toQ q - Big.toQ (totalY binData) / Big.toQ (totalX binData))
          <= 1 # Z.to_pos (2 * Big.pow10 DP))%Q) /\
  (forall binData T,
     binData <> nil -> 0 < Big.coef T ->
     (forall b, In b binData -> Big.eq (Big.add (liquidityX b) (liquidityY b)) T = true) ->
     concentrationIndex (getLiquidityDistribution DP binData)
     = (1 - fold_left (fun a b => a + b * b)
            (repeat (Number (Big.mk (Big.div_half_up (Big.pow10 DP)
                                       (Z.of_nat (length binData))) DP))
                    (length binData)) 0)%float) /\
  (forall binData T,
     (18 <= DP)%nat ->
     binData <> nil -> 0 < Big.coef T ->
     (forall b, In b binData -> Big.eq (Big.add (liquidityX b) (liquidityY b)) T = true) ->
     Z.of_nat (length binData) <= 4294967296 ->
     (Qabs (FloatValue.value (concentrationIndex (getLiquidityDistribution DP binData))
            - (1 - 1 / inject_Z (Z.of_nat (length binData))))
      <= 1 # 2251799813685248)%Q) /\
  (forall binData T,
     DP = 20%nat \/ DP = 18%nat ->
     binData <> nil -> 0 < Big.coef T ->
     (forall b, In b binData -> Big.eq (Big.add (liquidityX b) (liquidityY b)) T = true) ->
     (length binData <= 1000)%nat ->
     let x := concentrationIndex (getLiquidityDistribution DP binData) in
     let y := (1 - 1 / Num.of_Z (Z.of_nat (length binData)))%float in
     x = y \/ x = next_down y \/ x = next_up y) /\
  (forall binData T,
     DP = 20%nat \/ DP = 18%nat ->
     0 < Big.coef T ->
     (forall b, In b binData -> Big.eq (Big.add (liquidityX b) (liquidityY b)) T = true) ->
     (length binData = 1%nat ->
        concentrationIndex (getLiquidityDistribution DP binData) = (1 - 1 / 1)%float) /\
     (length binData = 2%nat ->
        concentrationIndex (getLiquidityDistribution DP binData) = (1 - 1 / 2)%float) /\
     (length binData = 4%nat ->
        concentrationIndex (getLiquidityDistribution DP binData) = (1 - 1 / 4)%float) /\
     (length binData = 5%nat ->
        concentrationIndex (getLiquidityDistribution DP binData) = 0.7999999999999999%float)).
Proof.
  split; [reflexivity|].
  split; [apply liquidityRatio_zero_totalX|].
  split; [apply liquidityRatio_quotient|].
  split; [apply equal_bins_index|].
  split; [apply equal_bins_index_bound|].
  split; [apply equal_bins_index_neighbours|].
  intros binData T HDP HT H.
  assert (G : forall n : nat, length binData = S n ->
            concentrationIndex (getLiquidityDistribution DP binData)
            = (1 - fold_left (fun a b => a + b * b)
                   (repeat (Number (Big.mk (Big.div_half_up (Big.pow10 DP)
                                              (Z.of_nat (S n))) DP))
                           (S n)) 0)%float).
  { intros n Hn. rewrite <- Hn. apply (equal_bins_index DP binData T); try assumption.
    intros ->. discriminate. }
  destruct HDP as [-> | ->];
    repeat split; intros Hn; rewrite (G _ Hn); vm_compute; reflexivity.
Qed.

(** Two bins of total liquidity 2000 each, split differently: the index is
    0.5; and three bins of 100 each at 18 decimals: the index is within
    2^-51 of 2/3. *)
Lemma getLiquidityDistribution_spec_witness :
  0 < Big.coef (Big.of_Z 2000) /\
  concentrationIndex
    (getLiquidityDistribution 20
       (mkBin (Big.of_Z 1000) (Big.of_Z 1000) :: mkBin (Big.of_Z 500) (Big.mk 15000 1) :: nil))
    = 0.5%float /\
  (Qabs (FloatValue.value
           (concentrationIndex
              (getLiquidityDistribution 18 (repeat (mkBin (Big.of_Z 50) (Big.of_Z 50)) 3)))
         - (1 - 1 / inject_Z 3))
   <= 1 # 2251799813685248)%Q.
Proof.
  split; [reflexivity|]. split.
  - destruct (getLiquidityDistribution_spec 20) as (_ & _ & _ & _ & _ & _ & H).
    assert (Hall : forall b,
              In b (mkBin (Big.of_Z 1000) (Big.of_Z 1000)
                    :: mkBin (Big.of_Z 500) (Big.mk 15000 1) :: nil) ->
              Big.eq (Big.add (liquidityX b) (liquidityY b)) (Big.of_Z 2000) = true)
      by (intros b [<-|[<-|[]]]; reflexivity).
    exact (proj1 (proj2 (H _ (Big.of_Z 2000) (or_introl eq_refl) eq_refl Hall)) eq_refl).
  - destruct (getLiquidityDistribution_spec 18) as (_ & _ & _ & _ & H & _).
    assert (Hall : forall b,
              In b (repeat (mkBin (Big.of_Z 50) (Big.of_Z 50)) 3) ->
              Big.eq (Big.add (liquidityX b) (liquidityY b)) (Big.of_Z 100) = true)
      by (intros b [<-|[<-|[<-|[]]]]; reflexivity).
    exact (H (repeat (mkBin (Big.of_Z 50) (Big.of_Z 50)) 3) (Big.of_Z 100)
             (le_n 18) ltac:(discriminate) eq_refl Hall ltac:(vm_compute; discriminate)).
Defined.

(** Five bins of equal liquidity: the index is one unit in the last place
    below the number [1 - 1/5], and differs from the exact 4/5. *)
Lemma equal_bins_five :
  concentrationIndex (getLiquidityDistribution 20 (repeat (mkBin (Big.of_Z 50) (Big.of_Z 50)) 5))
    = 0.7999999999999999%float /\
  (1 - 1 / 5)%float = 0.8%float /\
  PrimFloat.eqb 0.7999999999999999 0.8 = false /\
  PrimFloat.eqb
    (concentrationIndex
       (getLiquidityDistribution 18 (repeat (mkBin (Big.of_Z 50) (Big.of_Z 50)) 5)))
    (1 - 1 / 5) = false /\
  Qeq_bool
    (FloatValue.value
       (concentrationIndex
          (getLiquidityDistribution 18 (repeat (mkBin (Big.of_Z 50) (Big.of_Z 50)) 5))))
    (1 - 1 / inject_Z 5) = false.
Proof. repeat split; vm_compute; reflexivity. Qed.

End MetricsFacts.

(* ===================================================================== *)
(** * BaseStrategy: the risk filter and the lifecycle guard *)

Module BaseStrategyFacts.

Import Types BaseStrategy.

Lemma Qgt_bool_true (a b : Q) : Qgt_bool a b = true <-> (b < a)%Q.
Proof.
  unfold Qgt_bool. rewrite negb_true_iff.
  destruct (Qle_bool a b) eqn:E.
  - apply Qle_bool_iff in E. split; [discriminate|]. intros Hlt.
    exfalso. apply (Qlt_not_le _ _ Hlt E).
  - split; [intros _|reflexivity]. apply Qnot_le_lt. intros Hle.
    apply Qle_bool_iff in Hle. congruence.
Qed.

Lemma Qgt_bool_false (a b : Q) : Qgt_bool a b = false <-> (a <= b)%Q.
Proof.
  unfold Qgt_bool. rewrite negb_false_iff. apply Qle_bool_iff.
Qed.

Lemma Qminus_neg (a b : Q) : (a - b < 0)%Q <-> (a < b)%Q.
Proof.
  rewrite (Qlt_minus_iff a b), (Qlt_minus_iff (a - b) 0).
  assert (E : (0 + - (a - b) == b + - a)%Q) by ring.
  rewrite E. reflexivity.
Qed.

Lemma Qminus_nonneg (a b : Q) : (0 <= a - b)%Q <-> (b <= a)%Q.
Proof.
  rewrite (Qle_minus_iff b a). reflexivity.
Qed.

(** *** The sort *)

Lemma insert_perm (x : StrategyAction) (l : list StrategyAction) :
  Permutation (insert byPriority x l) (x :: l).
Proof.
  induction l as [|y l IH]; cbn [insert].
  - apply Permutation_refl.
  - destruct (Qgt_bool 0 (byPriority y x)).
    + apply perm_trans with (y :: x :: l).
      * apply perm_skip. exact IH.
      * apply perm_swap.
    + apply Permutation_refl.
Qed.

Lemma sort_perm (l : list StrategyAction) : Permutation (sort byPriority l) l.
Proof.
  induction l as [|x l IH]; cbn [sort fold_right].
  - apply perm_nil.
  - apply perm_trans with (x :: sort byPriority l).
    + apply insert_perm.
    + apply perm_skip. exact IH.
Qed.

Lemma insert_sorted (x : StrategyAction) (l : list StrategyAction) :
  StronglySorted byPriorityDesc l -> StronglySorted byPriorityDesc (insert byPriority x l).
Proof.
  induction l as [|y l IH]; intros Hs; cbn [insert].
  - constructor; constructor.
  - inversion Hs as [|? ? Hl Hy]; subst.
    destruct (Qgt_bool 0 (byPriority y x)) eqn:E.
    + apply Qgt_bool_true in E. unfold byPriority in E.
      constructor; [apply IH; exact Hl|].
      apply List.Forall_forall. intros z Hz.
      apply (Permutation_in _ (insert_perm x l)) in Hz. destruct Hz as [<-|Hz].
      * unfold byPriorityDesc. apply Qlt_le_weak. apply Qminus_neg. exact E.
      * rewrite List.Forall_forall in Hy. apply Hy. exact Hz.
    + apply Qgt_bool_false in E. unfold byPriority in E.
      assert (Hxy : byPriorityDesc x y).
      { unfold byPriorityDesc. apply Qminus_nonneg. exact E. }
      constructor; [exact Hs|].
      constructor; [exact Hxy|].
      apply List.Forall_forall. intros z Hz. rewrite List.Forall_forall in Hy.
      unfold byPriorityDesc in *.
      apply Qle_trans with (priority y); [apply Hy; exact Hz|exact Hxy].
Qed.

Lemma sort_sorted (l : list StrategyAction) :
  StronglySorted byPriorityDesc (sort byPriority l).
Proof.
  induction l as [|x l IH]; cbn [sort fold_right].
  - constructor.
  - apply insert_sorted. exact IH.
Qed.

Section Facts.

Context {S : Type} `{StrategyHooks S}.

(** *** Initialization *)

Lemma initialize_ok (cfg : StrategyConfig) (st st' : t S) :
  initialize cfg st = (st', Ok tt) ->
  config st' = Some cfg /\ isInitialized st' = true /\ validateConfig cfg = Ok tt.
Proof.
  unfold initialize. destruct (validateConfig cfg) as [[]|e]; [|discriminate].
  destruct (onInitialize (Some cfg) (self st)) as [s' [[]|e]]; [|discriminate].
  intros [= <-]. repeat split.
Qed.

Lemma validateConfig_ok (cfg : StrategyConfig) :
  validateConfig cfg = Ok tt ->
  exists M rp, maxPositionSize cfg = Some M /\ Big.lte M Big.zero = false /\
               riskParameters cfg = Some rp.
Proof.
  unfold validateConfig.
  destruct (String.eqb (cfg_poolAddress cfg) ""); [discriminate|].
  destruct (maxPositionSize cfg) as [M|]; [|discriminate].
  destruct (Big.lte M Big.zero) eqn:E; [discriminate|].
  destruct (riskParameters cfg) as [rp|]; [|discriminate].
  intros _. exists M, rp. repeat split; auto.
Qed.

(** *** The risk filter *)

(** An action passes [isActionSafe] only through all three checks and the
    strategy's own. *)
Lemma isActionSafe_checks (st : t S) (action : StrategyAction) (md : MarketData) (now : Z) :
  isActionSafe st action md now = true ->
  checkPositionSize st action = Ok true /\
  checkVolatility st action md = Ok true /\
  checkSlippage st action = Ok true /\
  isStrategySpecificActionSafe (config st) action md now (self st) = Ok true.
Proof.
  unfold isActionSafe, isActionSafe_body.
  destruct (checkPositionSize st action) as [[]|]; cbn [rbind negb]; try discriminate.
  destruct (checkVolatility st action md) as [[]|]; cbn [rbind negb]; try discriminate.
  destruct (checkSlippage st action) as [[]|]; cbn [rbind negb]; try discriminate.
  destruct (isStrategySpecificActionSafe _ _ _ _ _) as [[]|]; try discriminate.
  repeat split.
Qed.

Section Configured.

Variables (st : t S) (cfg : StrategyConfig) (M : Big.t) (rp : RiskParameters).
Hypothesis Hconfig : config st = Some cfg.
Hypothesis HmaxSize : maxPositionSize cfg = Some M.
Hypothesis Hrisk : riskParameters cfg = Some rp.

Lemma checkPositionSize_true (action : StrategyAction) (amount : Big.t) :
  checkPositionSize st action = Ok true ->
  liquidityAmount (parameters action) = Some amount ->
  Big.gt amount M = false.
Proof.
  unfold checkPositionSize. intros Hc Ha. rewrite Ha, Hconfig in Hc.
  cbn [required rbind] in Hc. rewrite HmaxSize in Hc. cbn [required rbind] in Hc.
  destruct (Big.gt amount M); [discriminate|reflexivity].
Qed.

Lemma checkVolatility_true (action : StrategyAction) (md : MarketData) (p : PoolData) :
  checkVolatility st action md = Ok true ->
  find (fun p => String.eqb (address p) (poolAddress action)) (pools md) = Some p ->
  (volatility p <= volatilityThreshold rp)%Q.
Proof.
  unfold checkVolatility. intros Hc Hp. rewrite Hp, Hconfig in Hc.
  cbn [required rbind] in Hc. rewrite Hrisk in Hc. cbn [required rbind] in Hc.
  apply Qgt_bool_false.
  destruct (Qgt_bool (volatility p) (volatilityThreshold rp)); [discriminate|reflexivity].
Qed.

(** The slippage check compares only a slippage that is not 0. *)
Lemma checkSlippage_true (action : StrategyAction) (s : Q) :
  checkSlippage st action = Ok true ->
  slippage (parameters action) = Some s ->
  ~ (s == 0)%Q ->
  (s <= maxSlippage rp)%Q.
Proof.
  unfold checkSlippage. intros Hc Hs Hnz. rewrite Hs in Hc.
  destruct (truthy s) eqn:Et.
  - rewrite Hconfig in Hc. cbn [required rbind] in Hc.
    rewrite Hrisk in Hc. cbn [required rbind] in Hc.
    apply Qgt_bool_false.
    destruct (Qgt_bool s (maxSlippage rp)); [discriminate|reflexivity].
  - exfalso. unfold truthy in Et. apply negb_false_iff in Et.
    apply Qeq_bool_iff in Et. exact (Hnz Et).
Qed.

End Configured.

(** C2 as the code has it.  For an initialized strategy whose configured
    [maxSlippage] is not negative, and for the candidate list [actions] its
    analysis produced, [analyze] returns (it does not raise) a list [out]
    that is the safe candidates in another order: no action of [out] has a
    [liquidityAmount] above [maxPositionSize], none targets a pool of the
    market data whose volatility is above [volatilityThreshold], none has a
    slippage above [maxSlippage], and [out] is in descending order of
    priority. *)
Theorem analyze_output (st : t S) (cfg : StrategyConfig) (M : Big.t) (rp : RiskParameters)
    (md : MarketData) (now : Z) (s' : S) (actions : list StrategyAction) :
  isInitialized st = true ->
  config st = Some cfg -> maxPositionSize cfg = Some M -> riskParameters cfg = Some rp ->
  (0 <= maxSlippage rp)%Q ->
  onAnalyze (config st) md now (self st) = (s', Ok actions) ->
  exists out : list StrategyAction,
    analyze md now st = (mk (config st) true s', Ok out) /\
    Permutation out
      (List.filter (fun a => isActionSafe (mk (config st) true s') a md now) actions) /\
    (forall a, In a out ->
       (forall amount, liquidityAmount (parameters a) = Some amount ->
          Big.gt amount M = false) /\
       (forall p,
          find (fun p => String.eqb (address p) (poolAddress a)) (pools md) = Some p ->
          (volatility p <= volatilityThreshold rp)%Q) /\
       (forall s, slippage (parameters a) = Some s -> (s <= maxSlippage rp)%Q)) /\
    StronglySorted byPriorityDesc out.
Proof.
  intros Hinit Hc HM Hrp Hslip Hanalyze.
  set (st' := mk (config st) true s').
  exists (sort byPriority (applyRiskFilters st' actions md now)).
  split.
  { unfold analyze. rewrite Hinit. cbn [negb]. rewrite Hanalyze. reflexivity. }
  split; [apply sort_perm|]. split; [|apply sort_sorted].
  intros a Ha.
  apply (Permutation_in _ (sort_perm _)) in Ha.
  unfold applyRiskFilters in Ha. apply filter_In in Ha. destruct Ha as [_ Hsafe].
  apply isActionSafe_checks in Hsafe. destruct Hsafe as (Hsize & Hvol & Hsl & _).
  assert (Hc' : config st' = Some cfg) by exact Hc.
  split; [|split].
  - intros amount Ha. exact (checkPositionSize_true st' cfg M Hc' HM a amount Hsize Ha).
  - intros p Hp. exact (checkVolatility_true st' cfg rp Hc' Hrp a md p Hvol Hp).
  - intros s Hs. destruct (Qeq_dec s 0) as [Hz|Hnz].
    + rewrite Hz. exact Hslip.
    + exact (checkSlippage_true st' cfg rp Hc' Hrp a s Hsl Hs Hnz).
Qed.

(** C9.  On a strategy that is not initialized, and on one that [cleanup]
    has reset, [analyze] and [execute] raise the not-initialized error and
    return nothing else, leaving the strategy as it was.  After a successful
    [initialize] the strategy is initialized and [analyze] raises only what
    [onAnalyze] raises; when [onAnalyze] returns, [analyze] returns a
    list. *)
Theorem notInitialized_raised (st : t S) (md : MarketData) (action : StrategyAction)
    (now : Z) :
  (isInitialized st = false ->
     analyze md now st = (st, Throw notInitialized) /\
     execute action now st = (st, Throw notInitialized)) /\
  (forall st', cleanup st = (st', Ok tt) ->
     analyze md now st' = (st', Throw notInitialized) /\
     execute action now st' = (st', Throw notInitialized)) /\
  (forall cfg st', initialize cfg st = (st', Ok tt) ->
     isInitialized st' = true /\
     forall s' r, onAnalyze (config st') md now (self st') = (s', r) ->
       match r with
       | Throw e => snd (analyze md now st') = Throw e
       | Ok _ => exists out, snd (analyze md now st') = Ok out
       end).
Proof.
  assert (Hraise : forall st0 : t S, isInitialized st0 = false ->
            analyze md now st0 = (st0, Throw notInitialized) /\
            execute action now st0 = (st0, Throw notInitialized)).
  { intros st0 Hn. unfold analyze, execute. rewrite Hn. split; reflexivity. }
  split; [apply Hraise|]. split.
  - intros st' Hcl. apply Hraise. revert Hcl. unfold cleanup.
    destruct (onCleanup (config st) (self st)) as [s' [[]|e]]; [|discriminate].
    intros [= <-]. reflexivity.
  - intros cfg st' Hi. apply initialize_ok in Hi. destruct Hi as (_ & Hinit & _).
    split; [exact Hinit|].
    intros s' r Hr. unfold analyze. rewrite Hinit. cbn [negb]. rewrite Hr.
    destruct r as [actions|e]; cbn [snd]; [eexists|]; reflexivity.
Qed.

End Facts.

Import FixedStrategy.

(** The risk filter rejects the create-position action whose amount, 5000,
    is above the maximum position size, 1000: [analyze] returns the two other
    candidates, the higher priority first. *)
Lemma analyze_output_witness :
  let st := fst (initialize Examples.config
                   (new (Examples.oversized :: Examples.rebalance
                         :: Examples.collectFees :: nil))) in
  isInitialized st = true /\
  (0 <= maxSlippage Examples.riskLimits)%Q /\
  snd (analyze Examples.marketData 1 st)
    = Ok (Examples.collectFees :: Examples.rebalance :: nil) /\
  exists out : list StrategyAction,
    snd (analyze Examples.marketData 1 st) = Ok out /\
    StronglySorted byPriorityDesc out.
Proof.
  cbv zeta.
  set (st := fst (initialize Examples.config
                   (new (Examples.oversized :: Examples.rebalance
                         :: Examples.collectFees :: nil)))).
  assert (Hslip : (0 <= maxSlippage Examples.riskLimits)%Q) by discriminate.
  split; [reflexivity|]. split; [exact Hslip|]. split; [vm_compute; reflexivity|].
  assert (Hrun : onAnalyze (config st) Examples.marketData 1 (self st)
                 = (self st, Ok (self st))) by reflexivity.
  destruct (analyze_output st Examples.config (Big.of_Z 1000) Examples.riskLimits
              Examples.marketData 1 (self st) (self st)
              eq_refl eq_refl eq_refl eq_refl Hslip Hrun)
    as (out & Hout & _ & _ & Hsorted).
  exists out. split; [rewrite Hout; reflexivity|exact Hsorted].
Defined.

(** A strategy with [maxSlippage = -0.01] and a candidate asking for a
    slippage of 0: the candidate is returned, and its slippage exceeds the
    limit. *)
Lemma analyze_keeps_zero_slippage :
  snd (initialize Examples.negativeSlippageConfig (new (Examples.zeroSlippage :: nil)))
    = Ok tt /\
  snd (analyze Examples.marketData 1
         (fst (initialize Examples.negativeSlippageConfig
                 (new (Examples.zeroSlippage :: nil)))))
    = Ok (Examples.zeroSlippage :: nil) /\
  slippage (parameters Examples.zeroSlippage) = Some 0%Q /\
  (maxSlippage Examples.negativeSlippageLimits < 0)%Q.
Proof. repeat split; vm_compute; reflexivity. Qed.

(** A fresh strategy object raises on [analyze]; once initialized, it
    returns. *)
Lemma notInitialized_raised_witness :
  isInitialized (new (Examples.collectFees :: nil)) = false /\
  analyze Examples.marketData 1 (new (Examples.collectFees :: nil))
    = (new (Examples.collectFees :: nil), Throw notInitialized) /\
  snd (analyze Examples.marketData 1
         (fst (initialize Examples.config (new (Examples.collectFees :: nil)))))
    = Ok (Examples.collectFees :: nil).
Proof.
  split; [reflexivity|]. split.
  - exact (proj1 (proj1 (notInitialized_raised (new (Examples.collectFees :: nil))
                           Examples.marketData Examples.collectFees 1) eq_refl)).
  - vm_compute. reflexivity.
Defined.

End BaseStrategyFacts.

(* ===================================================================== *)
(** * BalancedLiquidityStrategy: the rebalance hysteresis *)

Module BalancedLiquidityFacts.

Import Types BalancedLiquidity.

(** C8.  With a target range of 10 bins and a rebalance threshold of 0.05
    the movement threshold is [floor(10 * 0.05) = 0].  When the cooldown has
    elapsed, the last active bin seen was 100 and the pool's active bin is
    112, [analyzeRebalancing] emits exactly one action, a rebalance of the
    configured pool to the bin range [102, 122], and records 112 as the last
    active bin seen. *)
Theorem analyzeRebalancing_emits (config : StrategyConfig)
    (poolData : PoolData) (now : Z) (s : t) (bc : BalancedLiquidityConfig) :
  balancedConfig s = Some bc ->
  targetRange bc = 10 ->
  rebalanceThreshold bc = 0.05%float ->
  lastActiveBinId s = 100 ->
  activeId poolData = 112 ->
  minRebalanceInterval s <= now - lastRebalanceTime s ->
  Num.Math_floor (Num.of_Z 10 * 0.05)%float = 0%float /\
  analyzeRebalancing config poolData now s
  = (mk (Some bc) 112 (lastRebalanceTime s) (minRebalanceInterval s),
     mkAction REBALANCE (cfg_poolAddress config)
       (mkParameters None (Some (102, 122)) None None (Some Spot)
                     (Some "Active bin movement"%string) None)
       50 400000 None :: nil).
Proof.
  intros Hbc Htr Hth Hlast Hact Hcool.
  split; [vm_compute; reflexivity|].
  unfold analyzeRebalancing.
  rewrite Hbc, Hlast, Hact, Htr, Hth.
  destruct (now - lastRebalanceTime s <? minRebalanceInterval s) eqn:E.
  { apply Z.ltb_lt in E. lia. }
  reflexivity.
Qed.

(** The scenario from a strategy initialized with the default target range
    and threshold: a first analysis at active bin 100 records the bin and
    emits nothing; six minutes after start, at active bin 112, the rebalance
    to [102, 122] is emitted. *)
Lemma analyzeRebalancing_emits_witness :
  let s0 := fst (onInitialize (Some Examples.config) new) in
  let s1 := fst (analyzeRebalancing Examples.config Examples.pool 300000 s0) in
  let moved := mkPoolData "pool" 112 (Big.of_Z 50000) (Big.of_Z 20) (3 # 10) (2 # 10) 0 in
  snd (analyzeRebalancing Examples.config Examples.pool 300000 s0) = nil /\
  lastActiveBinId s1 = 100 /\
  minRebalanceInterval s1 <= 360000 - lastRebalanceTime s1 /\
  snd (analyzeRebalancing Examples.config moved 360000 s1)
  = mkAction REBALANCE "pool"
      (mkParameters None (Some (102, 122)) None None (Some Spot)
                    (Some "Active bin movement"%string) None)
      50 400000 None :: nil.
Proof.
  cbv zeta.
  set (s0 := fst (onInitialize (Some Examples.config) new)).
  set (s1 := fst (analyzeRebalancing Examples.config Examples.pool 300000 s0)).
  set (moved := mkPoolData "pool" 112 (Big.of_Z 50000) (Big.of_Z 20) (3 # 10) (2 # 10) 0).
  assert (Hcool : minRebalanceInterval s1 <= 360000 - lastRebalanceTime s1)
    by (vm_compute; discriminate).
  split; [reflexivity|]. split; [reflexivity|]. split; [exact Hcool|].
  pose proof (analyzeRebalancing_emits Examples.config moved 360000 s1
                (mergeConfig (Some Examples.config))
                eq_refl eq_refl eq_refl eq_refl eq_refl Hcool) as [_ Hemit].
  rewrite Hemit. reflexivity.
Defined.

End BalancedLiquidityFacts.

(* ===================================================================== *)
(** * MarketDataService: the pool-state cache *)

Module MarketDataFacts.

Import Types MarketData.


Section Service.

Variable DLMM_create : string -> result DLMM.





End Service.


End MarketDataFacts.
